(** * EFPSServerBot: the server-list embed pipeline of [efpsserverbot.py]

    A shallow embedding of the functions of [efpsserverbot.py] that fetch the
    server list, resolve Steam names, choose a display name per player,
    format a player line, and pack everything into one Discord embed;
    followed by the properties of that pipeline.

    Conventions of the embedding.
    - A Python [str] is a list of Unicode code points ([pystr]), so that
      [len] is [length] also for the non-ASCII characters of the f-strings
      (the bullet U+2022 and the em dash U+2014).
    - A decoded JSON value is a [pyval].  The program observes the values of
      a player record only through [bool()], [str()] and f-string
      formatting, which for these types is [str()].
    - A Python [dict] is a [gmap]; a Python [set] is a [gset].
    - The clock, the environment variable and the network are explicit
      arguments. *)

From Stdlib Require Import ZArith String Ascii DecimalString.
From stdpp Require Import base option list gmap.

Open Scope Z_scope.
Open Scope nat_scope.

(** ** Python strings *)

Abbreviation pystr := (list N).

(** An ASCII literal of the source, as code points. *)
Definition lit (s : string) : pystr :=
  map N_of_ascii (list_ascii_of_string s).

Definition bullet : N := 8226%N.   (* U+2022 *)
Definition emdash : N := 8212%N.   (* U+2014 *)
Definition newline : N := 10%N.

(** [sep.join(parts)] *)
Fixpoint join (sep : pystr) (parts : list pystr) : pystr :=
  match parts with
  | [] => []
  | [x] => x
  | x :: rest => x ++ sep ++ join sep rest
  end.

(** [s[-n:]] for [0 < n] *)
Definition last_chars (n : nat) (s : pystr) : pystr :=
  drop (length s - n) s.

(** [str(z)] for an [int] *)
Definition str_int (z : Z) : pystr :=
  lit (NilZero.string_of_int (Z.to_int z)).

(** [len(s)] *)
Definition len {A : Type} (s : list A) : Z := Z.of_nat (length s).

(** ** Decoded JSON values *)

(** [POther truth c rest] stands for a value of any other JSON type (a
    float, an array, an object): [truth] is its [bool()] and [c :: rest]
    its [str()], which Python never renders as the empty string. *)
Inductive pyval : Type :=
  | PNone
  | PBool (b : bool)
  | PInt (z : Z)
  | PStr (s : pystr)
  | POther (truth : bool) (c : N) (rest : pystr).

(** [bool(v)] *)
Definition py_bool (v : pyval) : bool :=
  match v with
  | PNone => false
  | PBool b => b
  | PInt z => negb (Z.eqb z 0)
  | PStr s => match s with [] => false | _ => true end
  | POther truth _ _ => truth
  end.

(** [str(v)], also what [f"{v}"] renders *)
Definition py_str (v : pyval) : pystr :=
  match v with
  | PNone => lit "None"
  | PBool true => lit "True"
  | PBool false => lit "False"
  | PInt z => str_int z
  | PStr s => s
  | POther _ c rest => c :: rest
  end.

(** [a or b] *)
Definition py_or (a b : pyval) : pyval :=
  if py_bool a then a else b.

(** A player record: a JSON object. *)
Abbreviation player := (gmap pystr pyval).

(** [p.get(key)] *)
Definition get (p : player) (key : pystr) : pyval :=
  default PNone (p !! key).

(** [p.get(key, dflt)] *)
Definition get_or (p : player) (key : pystr) (dflt : pyval) : pyval :=
  default dflt (p !! key).

(** ** [choose_player_name] *)

Definition name_keys : list pystr :=
  [lit "name"; lit "playerName"; lit "nick"; lit "username";
   lit "displayName"; lit "persona"; lit "personaname"].

(** The [for key in (...)] loop: [Some] is the [return] inside it, [None]
    falling out of the loop.  When [p.get(key)] is truthy the key is
    present, so [p[key]] is that same value. *)
Fixpoint first_local_name (p : player) (keys : list pystr) : option pystr :=
  match keys with
  | [] => None
  | key :: rest =>
      if py_bool (get p key) then Some (py_str (get p key))
      else first_local_name p rest
  end.

(** [str(p.get("steamId") or p.get("steam_id") or "")] *)
Definition steamid_of (p : player) : pystr :=
  py_str (py_or (py_or (get p (lit "steamId")) (get p (lit "steam_id")))
                (PStr [])).

Definition choose_player_name (p : player) (steam_map : gmap pystr pystr)
  : pystr :=
  match first_local_name p name_keys with
  | Some n => n
  | None =>
      let steamid := steamid_of p in
      match steamid with
      | _ :: _ =>
          default (lit "steam:" ++ last_chars 8 steamid) (steam_map !! steamid)
      | [] =>
          match p !! lit "userId" with
          | Some uid => lit "#" ++ py_str uid
          | None => lit "Unknown"
          end
      end
  end.

(** ** [compact_player_line] *)

Definition na : pyval := PStr (lit "n/a").

Definition team_map : gmap pystr pystr :=
  list_to_map
    [(lit "0", lit "Free For All"); (lit "1", lit "Free For All");
     (lit "2", lit "Rebel"); (lit "3", lit "Combine")].

Definition compact_player_line (p : player) (name : pystr) : pystr :=
  let team := get_or p (lit "teamIdx") na in
  let hp := get_or p (lit "health") na in
  let armor := get_or p (lit "armor") na in
  let kills := get_or p (lit "kills") na in
  let deaths := get_or p (lit "deaths") na in
  let ping := get_or p (lit "ping") na in
  let weapon := py_or (get p (lit "weapon")) (PStr (lit "none")) in
  let team := default (py_str team) (team_map !! py_str team) in
  let dash := lit " " ++ [emdash] ++ lit " " in
  lit "**" ++ name ++ lit "**" ++ dash ++ team ++ dash
    ++ py_str hp ++ lit "HP/" ++ py_str armor ++ lit "AR" ++ dash
    ++ py_str kills ++ lit "K/" ++ py_str deaths ++ lit "D" ++ dash
    ++ py_str ping ++ lit "ms" ++ dash ++ py_str weapon.

(** ** The embed *)

Definition FIELD_VALUE_MAX : Z := 1024.
Definition EMBED_TOTAL_MAX : Z := 6000.

(** One field of a [discord.Embed], as [add_field] stores it. *)
Record field : Type := Field {
  field_name : pystr;
  field_value : pystr;
  field_inline : bool
}.

(** The parts of a [discord.Embed] that the program sets. *)
Record Embed : Type := MkEmbed {
  title : pystr;
  description : pystr;
  timestamp : Z;
  author_name : pystr;
  author_icon_url : pystr;
  thumbnail_url : pystr;
  fields : list field;
  footer_text : pystr
}.

(** [sum(len(f.name) + len(f.value) for f in fs)] *)
Definition fields_len (fs : list field) : Z :=
  foldr Z.add 0%Z
        (map (fun f => (len (field_name f) + len (field_value f))%Z) fs).

(** [approx_len] (line 164) *)
Definition approx_len (e : Embed) : Z :=
  (len (title e) + len (description e) + fields_len (fields e))%Z.

(** The [serverInfo] object of an entry; a key that is absent is [None]. *)
Record server_info : Type := ServerInfo {
  info_name : option pystr;
  info_version : option pyval
}.

(** One element of the fetched list.  [entry_serverInfo] is [None] when the
    key is absent; [entry_players] is [None] when the key is absent or
    null. *)
Record entry : Type := Entry {
  entry_serverInfo : option server_info;
  entry_players : option (list player)
}.

Definition embed_title : pystr := lit "SF Servers".
Definition embed_description : pystr := lit "Live stats for SF HL2DM servers.".

(** [name = info.get("name", "unnamed")] *)
Definition server_name (e : entry) : pystr :=
  let info := default (ServerInfo None None) (entry_serverInfo e) in
  default (lit "unnamed") (info_name info).

(** [version = info.get("version", "unknown")] *)
Definition server_version (e : entry) : pyval :=
  let info := default (ServerInfo None None) (entry_serverInfo e) in
  default (PStr (lit "unknown")) (info_version info).

(** [f"Players: {n} • version `{version}`"] *)
Definition summary_line (n : Z) (version : pyval) : pystr :=
  lit "Players: " ++ str_int n ++ lit " " ++ [bullet] ++ lit " version `"
    ++ py_str version ++ lit "`".

Definition truncation_marker : pystr := newline :: lit "... (truncated)".

(** The body of the loop of [make_one_big_embed] up to [field_value]
    (lines 112-125). *)
Definition make_field_value (steam_map : gmap pystr pystr) (e : entry)
  : pystr :=
  let version := server_version e in
  let players := default [] (entry_players e) in
  match players with
  | [] => summary_line 0 version
  | _ :: _ =>
      let lines :=
        summary_line (len players) version
          :: map (fun p => compact_player_line p (choose_player_name p steam_map))
                 players in
      let joined := join [newline] lines in
      if (FIELD_VALUE_MAX <? len joined)%Z
      then take (Z.to_nat (FIELD_VALUE_MAX - 30)) joined ++ truncation_marker
      else joined
  end.

(** The mutable state of the loop: the fields added so far, and the two
    counters. *)
Record pack_state : Type := PackState {
  ps_fields : list field;
  total_chars : Z;
  servers_truncated : Z
}.

(** One iteration of [for entry in all_data] (lines 108-132). *)
Definition pack_step (steam_map : gmap pystr pystr) (st : pack_state)
    (e : entry) : pack_state :=
  let name := server_name e in
  let value := make_field_value steam_map e in
  if (EMBED_TOTAL_MAX <? total_chars st + len name + len value + 10)%Z
  then PackState (ps_fields st) (total_chars st) (servers_truncated st + 1)%Z
  else PackState (ps_fields st ++ [Field (take 256 name) value false])
                 (total_chars st + len name + len value)%Z
                 (servers_truncated st).

Definition pack_init : pack_state :=
  PackState [] (len embed_title + len embed_description)%Z 0%Z.

(** The whole loop. *)
Definition pack (steam_map : gmap pystr pystr) (all_data : list entry)
  : pack_state :=
  foldl (pack_step steam_map) pack_init all_data.

Definition notice_value (omitted : Z) : pystr :=
  lit "Truncated: " ++ str_int omitted ++ lit " server(s) omitted.".

Definition notice_field (omitted : Z) : field :=
  Field (lit "Notice") (notice_value omitted) false.

(** [f"Server list • {total} total (showing {shown})."] *)
Definition footer (total shown : Z) : pystr :=
  lit "Server list " ++ [bullet] ++ lit " " ++ str_int total
    ++ lit " total (showing " ++ str_int shown ++ lit ").".

(** [make_one_big_embed]; [now] is what [discord.utils.utcnow()] reads. *)
Definition make_one_big_embed (now : Z) (all_data : list entry)
    (steam_map : gmap pystr pystr) : Embed :=
  let st := pack steam_map all_data in
  let fs :=
    if (servers_truncated st =? 0)%Z then ps_fields st
    else ps_fields st ++ [notice_field (servers_truncated st)] in
  MkEmbed embed_title embed_description now
          (lit "SF Server Bot") (lit "attachment://icon.png")
          (lit "attachment://icon.png")
          fs
          (footer (len all_data) (len fs)).

(** ** Effects: exceptions, the name mapping, the requests sent *)

(** One [session.get(url)] of [resolve_steam_names]; the URL is determined
    by the key and the comma-joined batch. *)
Record request : Type := Request {
  req_key : pystr;
  req_steamids : list pystr
}.

(** One element of the [players] array of a reply: an object with its
    optional [steamid] and [personaname], or something on which the loop
    body raises (not an object, an unhashable id). *)
Inductive item : Type :=
  | Summary (steamid personaname : option pystr)
  | Malformed.

(** What [await resp.json()] gives: it raises, or it decodes to an object
    whose [response.players] (default [[]]) is the list. *)
Inductive payload : Type :=
  | BadJson
  | Players (ps : list item).

(** What the outside world does with a request: the call raises (network
    failure, timeout), or a reply arrives. *)
Inductive response : Type :=
  | NoReply
  | Reply (status : Z) (body : payload).

(** The state that [resolve_steam_names] mutates. *)
Record world : Type := World {
  mapping : gmap pystr pystr;
  issued : list request
}.

Inductive outcome (A : Type) : Type :=
  | Returned (a : A)
  | Raised.
Arguments Returned {A} a.
Arguments Raised {A}.

(** A computation that may raise and that mutates the [world]; what it
    mutated before raising stays mutated. *)
Definition eff (A : Type) : Type := world -> outcome A * world.

Definition ret {A} (a : A) : eff A := fun w => (Returned a, w).

Definition bind {A B} (m : eff A) (k : A -> eff B) : eff B :=
  fun w =>
    match m w with
    | (Returned a, w') => k a w'
    | (Raised, w') => (Raised, w')
    end.

Definition raise {A} : eff A := fun w => (Raised, w).

(** [try: body / except Exception: handler] *)
Definition try_except (body handler : eff unit) : eff unit :=
  fun w =>
    match body w with
    | (Returned a, w') => (Returned a, w')
    | (Raised, w') => handler w'
    end.

Notation "'do' x <- m ;; k" := (bind m (fun x => k))
  (at level 10, x name, m at level 99, k at level 200).

(** [for x in l: f(x)] *)
Fixpoint for_each {A} (f : A -> eff unit) (l : list A) : eff unit :=
  match l with
  | [] => ret tt
  | x :: rest => do _u <- f x ;; for_each f rest
  end.

Section Resolver.

(** [STEAM_API_KEY = os.getenv("steam_api")] *)
Variable STEAM_API_KEY : option pystr.

(** The lookup service. *)
Variable net : request -> response.

Definition session_get (r : request) : eff (Z * payload) :=
  fun w =>
    let w' := World (mapping w) (issued w ++ [r]) in
    match net r with
    | NoReply => (Raised, w')
    | Reply status body => (Returned (status, body), w')
    end.

Definition resp_json (body : payload) : eff (list item) :=
  match body with
  | BadJson => raise
  | Players ps => ret ps
  end.

(** [mapping[sid] = name] *)
Definition store (sid name : pystr) : eff unit :=
  fun w => (Returned tt, World (<[sid := name]> (mapping w)) (issued w)).

Definition truthy_str (o : option pystr) : bool :=
  match o with
  | Some (_ :: _) => true
  | _ => false
  end.

(** The body of [for p in players] (lines 58-61). *)
Definition absorb (p : item) : eff unit :=
  match p with
  | Malformed => raise
  | Summary sid name =>
      if truthy_str sid && truthy_str name
      then store (default [] sid) (default [] name)
      else ret tt
  end.

Definition CHUNK : nat := 100.

(** [range(0, stop, step)] for [0 < step] *)
Definition range_step (stop step : nat) : list nat :=
  map (fun k => k * step) (seq 0 ((stop + (step - 1)) / step)).

(** [[ids[i:i + CHUNK] for i in range(0, len(ids), CHUNK)]] *)
Definition chunks (ids : list pystr) : list (list pystr) :=
  map (fun i => take CHUNK (drop i ids)) (range_step (length ids) CHUNK).

(** The body of [for i in range(...)] (lines 46-63). *)
Definition lookup_chunk (key : pystr) (chunk : list pystr) : eff unit :=
  try_except
    (do resp <- session_get (Request key chunk) ;;
     if (fst resp =? 200)%Z
     then (do players <- resp_json (snd resp) ;; for_each absorb players)
     else ret tt)
    (ret tt).

Definition key_present : bool := truthy_str STEAM_API_KEY.

(** [resolve_steam_names]: what it returns (or that it raised), and the
    requests it sent. *)
Definition resolve_steam_names (steam_ids : gset pystr)
  : outcome (gmap pystr pystr) * list request :=
  if negb key_present || bool_decide (steam_ids = ∅)
  then (Returned ∅, [])
  else
    let ids := elements steam_ids in
    match for_each (lookup_chunk (default [] STEAM_API_KEY)) (chunks ids)
                   (World ∅ []) with
    | (Returned _, w) => (Returned (mapping w), issued w)
    | (Raised, w) => (Raised, issued w)
    end.

(** ** The [servers] command *)

(** What the primary data source does with the one GET.  A body is
    modelled when it decodes to a list of entries, the shape the command
    works on, or does not decode at all ([None]); a body that decodes to
    another JSON value is outside this model. *)
Inductive fetch_response : Type :=
  | FetchRaised
  | FetchReply (status : Z) (body : option (list entry)).

(** [fetch_server_data]; a body that does not decode ([None]) raises
    inside the [try]. *)
Definition fetch_server_data (r : fetch_response) : list entry :=
  match r with
  | FetchRaised => []
  | FetchReply status body =>
      if (status =? 200)%Z then default [] body else []
  end.

(** The one [interaction.followup.send] of a run. *)
Inductive reply : Type :=
  | SendText (content : pystr)
  | SendEmbed (embed : Embed) (file : pystr).

Definition no_servers_message : pystr :=
  lit "No servers available or failed to fetch data.".
Definition too_large_message : pystr :=
  lit "Result too large for a single embed.".

(** The value and the condition of the set comprehension (lines 153-157),
    for one player. *)
Definition player_steam_id (p : player) : option pystr :=
  let v := py_or (get p (lit "steamId")) (get p (lit "steam_id")) in
  if py_bool v then Some (py_str v) else None.

Definition all_players (data : list entry) : list player :=
  flat_map (fun e => default [] (entry_players e)) data.

Definition collect_steam_ids (data : list entry) : gset pystr :=
  list_to_set (omap player_steam_id (all_players data)).

(** [servers], given the clock reading and what the data source answers:
    the reply it sends (or that it raised), and the lookup requests it
    sent. *)
Definition servers (now : Z) (r : fetch_response)
  : outcome reply * list request :=
  let data := fetch_server_data r in
  match data with
  | [] => (Returned (SendText no_servers_message), [])
  | _ :: _ =>
      let steam_ids := collect_steam_ids data in
      let resolved :=
        if bool_decide (steam_ids = ∅) then (Returned ∅, [])
        else resolve_steam_names steam_ids in
      match resolved with
      | (Raised, log) => (Raised, log)
      | (Returned steam_map, log) =>
          let embed := make_one_big_embed now data steam_map in
          if (EMBED_TOTAL_MAX <? approx_len embed)%Z
          then (Returned (SendText too_large_message), log)
          else (Returned (SendEmbed embed (lit "icon.png")), log)
      end
  end.

End Resolver.

(** ** Predicates of the statements *)

(** A batch fails when the call raises, when the status is not 200, or when
    the body does not decode. *)
Definition failed (r : response) : Prop :=
  r = NoReply
  \/ (exists status body, r = Reply status body /\ status <> 200%Z)
  \/ r = Reply 200 BadJson.

(** The name map that [servers] passes to [make_one_big_embed] (line 159):
    empty when no identifier was collected, and else what
    [resolve_steam_names] returned (it never raises; had it raised,
    [servers] would not reach the packing). *)
Definition run_steam_map (key : option pystr) (net : request -> response)
    (r : fetch_response) : gmap pystr pystr :=
  let steam_ids := collect_steam_ids (fetch_server_data r) in
  if bool_decide (steam_ids = ∅) then ∅
  else match (resolve_steam_names key net steam_ids).1 with
       | Returned steam_map => steam_map
       | Raised => ∅
       end.

(** A lookup service is honest when a reply only names identifiers of the
    request it answers. *)
Definition honest (net : request -> response) : Prop :=
  forall q ps sid name,
    net q = Reply 200 (Players ps) ->
    Summary (Some sid) name ∈ ps ->
    sid ∈ req_steamids q.

(** What holds of the loop state after any number of iterations. *)
Record pack_invariant (n : Z) (st : pack_state) : Prop := PackInvariant {
  inv_headers : Forall (fun f => (len (field_name f) <= 256)%Z) (ps_fields st);
  inv_overcount :
    (len embed_title + len embed_description + fields_len (ps_fields st)
     <= total_chars st)%Z;
  inv_total : (total_chars st <= EMBED_TOTAL_MAX)%Z;
  inv_omitted : (0 <= servers_truncated st)%Z;
  inv_count : (len (ps_fields st) + servers_truncated st)%Z = n
}.

(** The field that the loop adds for an entry that fits (line 131). *)
Definition server_field (steam_map : gmap pystr pystr) (e : entry) : field :=
  Field (take 256 (server_name e)) (make_field_value steam_map e) false.

(** What the entries of a list add to the running total when all are
    included. *)
Definition data_cost (steam_map : gmap pystr pystr) (data : list entry) : Z :=
  foldr Z.add 0%Z
        (map (fun e => (len (server_name e)
                        + len (make_field_value steam_map e))%Z) data).

(** The keys that [compact_player_line] reads, and those that
    [choose_player_name] reads. *)
Definition line_keys : list pystr :=
  [lit "teamIdx"; lit "health"; lit "armor"; lit "kills"; lit "deaths";
   lit "ping"; lit "weapon"].

Definition identity_keys : list pystr :=
  name_keys ++ [lit "steamId"; lit "steam_id"; lit "userId"].

(** ** Sample inputs *)

(** The record of a player with only a Steam identifier. *)
Definition steam_only_player : player :=
  {[ lit "steamId" := PStr (lit "76561198000000001") ]}.

(** A name map that resolves an identifier to the empty name. *)
Definition empty_name_map : gmap pystr pystr := {[ lit "1" := [] ]}.

(** A name map that resolves the identifier of [steam_only_player]. *)
Definition gordon_map : gmap pystr pystr :=
  {[ lit "76561198000000001" := lit "gordon" ]}.

(** A server without players whose version string has 1100 characters. *)
Definition long_version_entry : entry :=
  Entry (Some (ServerInfo (Some (lit "s"))
                          (Some (PStr (replicate 1100 118%N)))))
        (Some []).

(** A server with sixteen players that report nothing, and one that reports
    no players. *)
Definition busy_entry : entry := Entry None (Some (replicate 16 (∅ : player))).
Definition idle_entry : entry := Entry None None.

(** Seven busy servers followed by an idle one: six busy servers fit, the
    seventh is omitted, the idle one still fits. *)
Definition overfull_data : list entry := replicate 7 busy_entry ++ [idle_entry].

(** Three players on two servers that carry the same identifier. *)
Definition shared_id_data : list entry :=
  [Entry None (Some [steam_only_player; steam_only_player]);
   Entry None (Some [ {[ lit "steam_id" := PInt 76561198000000001 ]} ])].

(** A lookup service that never answers. *)
Definition dead_net : request -> response := fun _ => NoReply.

(** A lookup service that fails on the batch of ["1"] and answers the
    others. *)
Definition flaky_net : request -> response :=
  fun q =>
    if bool_decide (req_steamids q = [lit "1"]) then Reply 503 BadJson
    else Reply 200 (Players [Summary (Some (lit "2")) (Some (lit "alyx"))]).

(** The identifiers ["1"] to ["101"]: two batches. *)
Definition many_ids : gset pystr :=
  list_to_set (map (fun n => str_int (Z.of_nat n)) (seq 1 101)).

(** A lookup service that fails on every batch naming ["1"] and resolves
    every identifier of the other batches. *)
Definition picky_net : request -> response :=
  fun q =>
    if bool_decide (lit "1" ∈ req_steamids q) then NoReply
    else Reply 200
           (Players (map (fun sid => Summary (Some sid) (Some (lit "n" ++ sid)))
                         (req_steamids q))).

(** Two servers without players, named ["dm"] and ["ctf"]. *)
Definition two_small_servers : list entry :=
  [Entry (Some (ServerInfo (Some (lit "dm")) (Some (PStr (lit "1.0")))))
         (Some []);
   Entry (Some (ServerInfo (Some (lit "ctf")) None)) None].

(** A lookup service that names every identifier of the request ["n"]
    followed by the identifier. *)
Definition echo_net : request -> response :=
  fun q =>
    Reply 200
      (Players (map (fun sid => Summary (Some sid) (Some (lit "n" ++ sid)))
                    (req_steamids q))).

(** A lookup service whose reply holds a good entry, something that is not
    an object, and another good entry; and one whose reply is cut before the
    bad entry. *)
Definition broken_net : request -> response :=
  fun _ =>
    Reply 200 (Players [Summary (Some (lit "1")) (Some (lit "gordon"));
                        Malformed;
                        Summary (Some (lit "2")) (Some (lit "alyx"))]).

Definition cut_net : request -> response :=
  fun _ => Reply 200 (Players [Summary (Some (lit "1")) (Some (lit "gordon"))]).

(** * Properties *)

(** ** Strings and values *)

Example choose_ex1 :
  choose_player_name {[ lit "steamId" := PStr (lit "76561198000000001") ]} ∅
  = lit "steam:00000001".
Proof. vm_compute. reflexivity. Qed.

Example line_ex1 :
  len (compact_player_line {[ lit "teamIdx" := PInt 2 ]} (lit "bob")) = 56%Z.
Proof. vm_compute. reflexivity. Qed.

Lemma len_app {A} (s t : list A) : len (s ++ t) = (len s + len t)%Z.
Proof. unfold len. rewrite length_app. lia. Qed.

Lemma len_nonneg {A} (s : list A) : (0 <= len s)%Z.
Proof. unfold len. lia. Qed.

Lemma len_cons {A} (x : A) (s : list A) : len (x :: s) = (1 + len s)%Z.
Proof. unfold len. simpl. lia. Qed.

Lemma len_take_le {A} (n : nat) (s : list A) : (len (take n s) <= Z.of_nat n)%Z.
Proof. unfold len. rewrite length_take. lia. Qed.

Lemma len_take_le_len {A} (n : nat) (s : list A) : (len (take n s) <= len s)%Z.
Proof. unfold len. rewrite length_take. lia. Qed.

Lemma lit_nonempty (a : ascii) (s : string) : lit (String a s) <> [].
Proof. discriminate. Qed.

Lemma string_of_uint_nonempty (d : Decimal.uint) :
  NilZero.string_of_uint d <> EmptyString.
Proof. destruct d; discriminate. Qed.

Lemma str_int_nonempty (z : Z) : str_int z <> [].
Proof.
  unfold str_int, NilZero.string_of_int.
  destruct (Z.to_int z) as [d | d].
  - pose proof (string_of_uint_nonempty d) as H.
    destruct (NilZero.string_of_uint d); [congruence | discriminate].
  - discriminate.
Qed.

Example str_int_examples :
  str_int 0 = lit "0" /\ str_int 1024 = lit "1024"
  /\ str_int (-12) = lit "-12".
Proof. repeat split. Qed.

(** [str()] of a truthy value is never empty. *)
Lemma py_str_truthy_nonempty (v : pyval) : py_bool v = true -> py_str v <> [].
Proof.
  destruct v as [ | [|] | z | [|c s] | t c s]; simpl; try discriminate.
  intros _. apply str_int_nonempty.
Qed.

(** [str()] is empty only for the empty string. *)
Lemma py_str_empty_inv (v : pyval) : py_str v = [] -> v = PStr [].
Proof.
  destruct v as [ | [|] | z | s | t c s]; simpl; try discriminate.
  - intros H. exfalso. exact (str_int_nonempty z H).
  - intros ->. reflexivity.
Qed.

Lemma last_chars_length (n : nat) (s : pystr) :
  length (last_chars n s) = Nat.min n (length s).
Proof. unfold last_chars. rewrite length_drop. lia. Qed.

Lemma last_chars_suffix (n : nat) (s : pystr) : last_chars n s `suffix_of` s.
Proof. unfold last_chars. apply suffix_drop. Qed.

(** ** Name selection *)

(** The loop over the local name fields returns the [str()] of the first
    truthy one. *)
Lemma first_local_name_hit (p : player) (pre post : list pystr) (key : pystr) :
  Forall (fun k => py_bool (get p k) = false) pre ->
  py_bool (get p key) = true ->
  first_local_name p (pre ++ key :: post) = Some (py_str (get p key)).
Proof.
  intros Hpre Hkey. induction Hpre as [ | k pre Hk _ IH]; simpl.
  - rewrite Hkey. reflexivity.
  - rewrite Hk. exact IH.
Qed.

Lemma first_local_name_miss (p : player) (keys : list pystr) :
  Forall (fun k => py_bool (get p k) = false) keys ->
  first_local_name p keys = None.
Proof.
  intros H. induction H as [ | k keys Hk _ IH]; simpl; [reflexivity | ].
  rewrite Hk. exact IH.
Qed.

Lemma first_local_name_nonempty (p : player) (keys : list pystr) (n : pystr) :
  first_local_name p keys = Some n -> n <> [].
Proof.
  induction keys as [ | k keys IH]; simpl; [discriminate | ].
  destruct (py_bool (get p k)) eqn:Hk; [ | exact IH].
  intros [= <-]. apply py_str_truthy_nonempty, Hk.
Qed.

Lemma py_or_truthy (a b : pyval) : py_bool a = true -> py_or a b = a.
Proof. unfold py_or. intros ->. reflexivity. Qed.

Lemma py_or_falsy (a b : pyval) : py_bool a = false -> py_or a b = b.
Proof. unfold py_or. intros ->. reflexivity. Qed.

(** The identifier [steamid] is non-empty exactly when one of the two
    identifier fields is truthy. *)
Lemma steamid_of_truthy (p : player) :
  py_bool (py_or (get p (lit "steamId")) (get p (lit "steam_id"))) = true ->
  steamid_of p = py_str (py_or (get p (lit "steamId")) (get p (lit "steam_id")))
  /\ steamid_of p <> [].
Proof.
  intros H. unfold steamid_of. rewrite (py_or_truthy _ (PStr []) H).
  split; [reflexivity | ]. apply py_str_truthy_nonempty, H.
Qed.

Lemma steamid_of_falsy (p : player) :
  py_bool (py_or (get p (lit "steamId")) (get p (lit "steam_id"))) = false ->
  steamid_of p = [].
Proof.
  intros H. unfold steamid_of. rewrite (py_or_falsy _ (PStr []) H).
  reflexivity.
Qed.

(** C4. The display name follows the precedence of [choose_player_name],
    first match wins: (1) the [str()] of the first local name field, in the
    order of [name_keys], that is present and truthy; with no such field and
    [ident] the first truthy one of [steamId], [steam_id]: (2) the name the
    map gives for [str(ident)]; (3) if the map has none, ["steam:"] followed
    by the last 8 characters of [str(ident)] (all of it when shorter);
    with no identifier either: (4) ["#"] followed by the [userId] when that
    key is present, a number in particular; (5) ["Unknown"] otherwise. *)
Theorem choose_player_name_precedence
    (p : player) (steam_map : gmap pystr pystr) :
  let ident := py_or (get p (lit "steamId")) (get p (lit "steam_id")) in
  (forall pre key post,
      name_keys = pre ++ key :: post ->
      Forall (fun k => py_bool (get p k) = false) pre ->
      py_bool (get p key) = true ->
      choose_player_name p steam_map = py_str (get p key))
  /\ (Forall (fun k => py_bool (get p k) = false) name_keys ->
      (forall resolved,
          py_bool ident = true ->
          steam_map !! py_str ident = Some resolved ->
          choose_player_name p steam_map = resolved)
      /\ (py_bool ident = true ->
          steam_map !! py_str ident = None ->
          choose_player_name p steam_map
            = lit "steam:" ++ last_chars 8 (py_str ident)
          /\ length (last_chars 8 (py_str ident))
             = Nat.min 8 (length (py_str ident))
          /\ last_chars 8 (py_str ident) `suffix_of` py_str ident)
      /\ (forall uid,
          py_bool ident = false ->
          p !! lit "userId" = Some uid ->
          choose_player_name p steam_map = lit "#" ++ py_str uid)
      /\ (forall n : Z,
          py_bool ident = false ->
          p !! lit "userId" = Some (PInt n) ->
          choose_player_name p steam_map = lit "#" ++ str_int n)
      /\ (py_bool ident = false ->
          p !! lit "userId" = None ->
          choose_player_name p steam_map = lit "Unknown")).
Proof.
  intros ident. split.
  - intros pre key post Hkeys Hpre Hkey. unfold choose_player_name.
    rewrite Hkeys, (first_local_name_hit p pre post key Hpre Hkey).
    reflexivity.
  - intros Hnone. unfold choose_player_name.
    rewrite (first_local_name_miss p name_keys Hnone). cbv zeta.
    split; [ | split; [ | split; [ | split]]].
    + intros resolved Hid Hmap.
      destruct (steamid_of_truthy p Hid) as [-> Hne]. fold ident in Hne |- *.
      destruct (py_str ident) eqn:E; [congruence | ].
      rewrite Hmap. reflexivity.
    + intros Hid Hmap.
      split; [ | split; [apply last_chars_length | apply last_chars_suffix]].
      destruct (steamid_of_truthy p Hid) as [-> Hne]. fold ident in Hne |- *.
      destruct (py_str ident) eqn:E; [congruence | ].
      rewrite Hmap. reflexivity.
    + intros uid Hid Huid. rewrite (steamid_of_falsy p Hid), Huid.
      reflexivity.
    + intros n Hid Huid. rewrite (steamid_of_falsy p Hid), Huid.
      reflexivity.
    + intros Hid Huid. rewrite (steamid_of_falsy p Hid), Huid.
      reflexivity.
Qed.

Lemma choose_player_name_precedence_witness :
  choose_player_name steam_only_player ∅ = lit "steam:00000001".
Proof.
  pose proof (choose_player_name_precedence steam_only_player ∅) as [_ H].
  assert (Hnone : Forall (fun k => py_bool (get steam_only_player k) = false)
                         name_keys).
  { repeat constructor. }
  destruct (H Hnone) as (_ & H3 & _).
  assert (Hid : py_bool (py_or (get steam_only_player (lit "steamId"))
                               (get steam_only_player (lit "steam_id")))
                = true) by reflexivity.
  assert (Hmap : (∅ : gmap pystr pystr)
                   !! py_str (py_or (get steam_only_player (lit "steamId"))
                                    (get steam_only_player (lit "steam_id")))
                 = None) by reflexivity.
  destruct (H3 Hid Hmap) as [Heq _].
  rewrite Heq. reflexivity.
Defined.

(** After the local name fields, the name depends only on the identifier,
    the map and [userId]. *)
Lemma choose_player_name_cases (p : player) (steam_map : gmap pystr pystr) :
  (exists n, first_local_name p name_keys = Some n
             /\ choose_player_name p steam_map = n)
  \/ (exists n, steamid_of p <> [] /\ steam_map !! steamid_of p = Some n
                /\ choose_player_name p steam_map = n)
  \/ (exists tail, choose_player_name p steam_map = lit "steam:" ++ tail)
  \/ (exists tail, choose_player_name p steam_map = lit "#" ++ tail)
  \/ choose_player_name p steam_map = lit "Unknown".
Proof.
  unfold choose_player_name.
  destruct (first_local_name p name_keys) as [n | ]; [left; eauto | right].
  cbv zeta. destruct (steamid_of p) as [ | c s] eqn:E.
  - right. right. destruct (p !! lit "userId"); [left; eauto | right; reflexivity].
  - destruct (steam_map !! (c :: s)) as [n | ] eqn:Hm.
    + left. exists n. simpl. auto.
    + right. left. eexists. reflexivity.
Qed.

(** The mapped name is returned as it is, so an empty name in the map would
    come out empty; [resolve_steam_names] never stores one (line 60). *)
Example choose_player_name_returns_mapped_name :
  choose_player_name {[ lit "steamId" := PStr (lit "1") ]} empty_name_map = [].
Proof. vm_compute. reflexivity. Qed.

Example choose_player_name_resolved :
  choose_player_name steam_only_player gordon_map = lit "gordon".
Proof. vm_compute. reflexivity. Qed.

(** With no empty name in the map, the selected name is not empty. *)
Lemma choose_player_name_nonempty (p : player) (steam_map : gmap pystr pystr) :
  map_Forall (fun _ n => n <> []) steam_map ->
  choose_player_name p steam_map <> [].
Proof.
  intros Hmap.
  destruct (choose_player_name_cases p steam_map)
    as [(n & Hn & ->) | [(n & _ & Hn & ->) | [(t & ->) | [(t & ->) | ->]]]];
    try discriminate.
  - exact (first_local_name_nonempty p name_keys n Hn).
  - exact (Hmap _ _ Hn).
Qed.

(** ** Field values *)

Lemma fields_len_app (fs gs : list field) :
  fields_len (fs ++ gs) = (fields_len fs + fields_len gs)%Z.
Proof.
  unfold fields_len. induction fs as [ | f fs IH]; simpl; [reflexivity | ].
  rewrite IH. lia.
Qed.

Lemma fields_len_singleton (f : field) :
  fields_len [f] = (len (field_name f) + len (field_value f))%Z.
Proof. unfold fields_len. simpl. lia. Qed.

Lemma len_truncation_marker : len truncation_marker = 16%Z.
Proof. reflexivity. Qed.

(** With at least one player, the value is the joined lines when they fit
    the cap, and else their first [FIELD_VALUE_MAX - 30] characters and the
    marker; in both cases it fits the cap. *)
Lemma make_field_value_players
    (steam_map : gmap pystr pystr) (e : entry) (p : player) (ps : list player) :
  entry_players e = Some (p :: ps) ->
  let joined :=
    join [newline]
         (summary_line (len (p :: ps)) (server_version e)
            :: map (fun q => compact_player_line q (choose_player_name q steam_map))
                   (p :: ps)) in
  ((len joined <= FIELD_VALUE_MAX)%Z ->
     make_field_value steam_map e = joined)
  /\ ((FIELD_VALUE_MAX < len joined)%Z ->
      make_field_value steam_map e
        = take (Z.to_nat (FIELD_VALUE_MAX - 30)) joined ++ truncation_marker
      /\ len (make_field_value steam_map e) = (FIELD_VALUE_MAX - 30 + 16)%Z)
  /\ (len (make_field_value steam_map e) <= FIELD_VALUE_MAX)%Z.
Proof.
  intros Hp joined.
  assert (Heq : make_field_value steam_map e
                = if (FIELD_VALUE_MAX <? len joined)%Z
                  then take (Z.to_nat (FIELD_VALUE_MAX - 30)) joined
                         ++ truncation_marker
                  else joined).
  { unfold make_field_value. rewrite Hp. reflexivity. }
  rewrite Heq. clear Heq.
  destruct (FIELD_VALUE_MAX <? len joined)%Z eqn:Hcmp.
  - apply Z.ltb_lt in Hcmp.
    assert (Hlen : len (take (Z.to_nat (FIELD_VALUE_MAX - 30)) joined
                          ++ truncation_marker)
                   = (FIELD_VALUE_MAX - 30 + 16)%Z).
    { rewrite len_app, len_truncation_marker. unfold len in *.
      rewrite length_take. unfold FIELD_VALUE_MAX in *. lia. }
    repeat split.
    + lia.
    + exact Hlen.
    + rewrite Hlen. unfold FIELD_VALUE_MAX. lia.
  - apply Z.ltb_ge in Hcmp. repeat split; try lia.
Qed.

(** With no player, the value is the summary line alone, whatever its
    length. *)
Lemma make_field_value_no_players (steam_map : gmap pystr pystr) (e : entry) :
  default [] (entry_players e) = [] ->
  make_field_value steam_map e = summary_line 0 (server_version e).
Proof. intros H. unfold make_field_value. rewrite H. reflexivity. Qed.

(** C2 fails on the code: for a server with no players and a version string
    of 1100 characters, the value of the field has 1123 characters, more
    than [FIELD_VALUE_MAX]; the branch without players never truncates. *)
Theorem make_field_value_no_players_over_cap :
  len (make_field_value ∅ long_version_entry) = 1123%Z
  /\ (FIELD_VALUE_MAX < len (make_field_value ∅ long_version_entry))%Z
  /\ make_field_value ∅ long_version_entry
     = lit "Players: 0 " ++ [bullet] ++ lit " version `"
         ++ replicate 1100 118%N ++ lit "`".
Proof. vm_compute. repeat split. Qed.

(** ** Global packing *)

(** What one iteration does, by the outcome of the capacity check. *)
Lemma pack_step_cases (steam_map : gmap pystr pystr) (st : pack_state)
    (e : entry) :
  let name := server_name e in
  let value := make_field_value steam_map e in
  ((EMBED_TOTAL_MAX < total_chars st + len name + len value + 10)%Z ->
     pack_step steam_map st e
     = PackState (ps_fields st) (total_chars st) (servers_truncated st + 1)%Z)
  /\ ((total_chars st + len name + len value + 10 <= EMBED_TOTAL_MAX)%Z ->
      pack_step steam_map st e
      = PackState (ps_fields st ++ [Field (take 256 name) value false])
                  (total_chars st + len name + len value)%Z
                  (servers_truncated st)).
Proof.
  intros name value. unfold pack_step. fold name value.
  destruct (EMBED_TOTAL_MAX <? total_chars st + len name + len value + 10)%Z
    eqn:Hcmp.
  - apply Z.ltb_lt in Hcmp. split; [reflexivity | lia].
  - apply Z.ltb_ge in Hcmp. split; [lia | reflexivity].
Qed.

Lemma pack_app (steam_map : gmap pystr pystr) (es1 es2 : list entry) :
  pack steam_map (es1 ++ es2)
  = foldl (pack_step steam_map) (pack steam_map es1) es2.
Proof. unfold pack. apply foldl_app. Qed.

Lemma pack_snoc (steam_map : gmap pystr pystr) (es : list entry) (e : entry) :
  pack steam_map (es ++ [e]) = pack_step steam_map (pack steam_map es) e.
Proof. rewrite pack_app. reflexivity. Qed.

Lemma len_overhead : (len embed_title + len embed_description)%Z = 42%Z.
Proof. reflexivity. Qed.

Lemma pack_invariant_init : pack_invariant 0 pack_init.
Proof.
  constructor; simpl.
  - constructor.
  - unfold fields_len. simpl. lia.
  - rewrite len_overhead. unfold EMBED_TOTAL_MAX. lia.
  - lia.
  - reflexivity.
Qed.

Lemma pack_invariant_step (steam_map : gmap pystr pystr) (n : Z)
    (st : pack_state) (e : entry) :
  pack_invariant n st -> pack_invariant (n + 1) (pack_step steam_map st e).
Proof.
  intros [Hh Ho Ht Hm Hc].
  destruct (pack_step_cases steam_map st e) as [Hskip Hadd].
  destruct (Z.lt_ge_cases EMBED_TOTAL_MAX
              (total_chars st + len (server_name e)
               + len (make_field_value steam_map e) + 10)) as [Hgt | Hle].
  - rewrite (Hskip Hgt). constructor; simpl; try assumption; lia.
  - rewrite (Hadd Hle).
    pose proof (len_nonneg (server_name e)).
    pose proof (len_nonneg (make_field_value steam_map e)).
    pose proof (len_take_le 256 (server_name e)).
    pose proof (len_take_le_len 256 (server_name e)).
    constructor; simpl.
    + apply Forall_app. split; [assumption | ].
      constructor; [simpl; lia | constructor].
    + rewrite fields_len_app, fields_len_singleton. simpl. lia.
    + lia.
    + assumption.
    + rewrite len_app. unfold len at 2. simpl. lia.
Qed.

Lemma pack_invariant_pack (steam_map : gmap pystr pystr) (data : list entry) :
  pack_invariant (len data) (pack steam_map data).
Proof.
  induction data as [ | e data IH] using rev_ind.
  - exact pack_invariant_init.
  - rewrite pack_snoc, len_app.
    replace (len [e]) with 1%Z by reflexivity.
    apply pack_invariant_step, IH.
Qed.

(** The fields of the embed: the server fields, and the notice when a
    server was omitted. *)
Lemma make_one_big_embed_fields (now : Z) (data : list entry)
    (steam_map : gmap pystr pystr) :
  let st := pack steam_map data in
  (servers_truncated st = 0%Z ->
     fields (make_one_big_embed now data steam_map) = ps_fields st)
  /\ (servers_truncated st <> 0%Z ->
      fields (make_one_big_embed now data steam_map)
      = ps_fields st ++ [notice_field (servers_truncated st)]).
Proof.
  intros st. unfold make_one_big_embed. fold st. cbn [fields].
  destruct (servers_truncated st =? 0)%Z eqn:E.
  - apply Z.eqb_eq in E. split; [reflexivity | congruence].
  - apply Z.eqb_neq in E. split; [congruence | reflexivity].
Qed.

Example overfull_data_packing :
  total_chars (pack ∅ overfull_data) = 5971%Z
  /\ servers_truncated (pack ∅ overfull_data) = 1%Z
  /\ len (ps_fields (pack ∅ overfull_data)) = 7%Z
  /\ last (ps_fields (pack ∅ overfull_data))
     = Some (Field (lit "unnamed") (make_field_value ∅ idle_entry) false).
Proof. vm_compute. repeat split. Qed.

(** C3, as stated, fails in its last part: on [overfull_data] one server is
    omitted, the notice is appended, and the size of the document is 6008,
    over the cap of 6000. *)
Lemma notice_exceeds_cap_counterexample :
  servers_truncated (pack ∅ overfull_data) <> 0%Z
  /\ (EMBED_TOTAL_MAX < approx_len (make_one_big_embed 0 overfull_data ∅))%Z.
Proof. vm_compute. split; [discriminate | reflexivity]. Qed.

(** C3, amended.  The loop takes the servers in the order fetched; a server
    for which the running total plus the length of its name, the length of
    its value and 10 exceeds 6000 is skipped and counted, and the loop goes
    on with the next one; every server is either included or counted.  After
    the loop, exactly one notice field stating the count is appended when
    the count is not zero.  The size of the document without the notice
    field is at most 6000; the notice field is added without a capacity
    check, and the size of the document is that size plus, when a server was
    omitted, the length of the notice field. *)
Theorem packing_skips_counts_and_notifies
    (now : Z) (data : list entry) (steam_map : gmap pystr pystr) :
  let st := pack steam_map data in
  let doc := make_one_big_embed now data steam_map in
  (forall (s : pack_state) (e : entry),
      let name := server_name e in
      let value := make_field_value steam_map e in
      ((EMBED_TOTAL_MAX < total_chars s + len name + len value + 10)%Z ->
         pack_step steam_map s e
         = PackState (ps_fields s) (total_chars s) (servers_truncated s + 1)%Z)
      /\ ((total_chars s + len name + len value + 10 <= EMBED_TOTAL_MAX)%Z ->
          pack_step steam_map s e
          = PackState (ps_fields s ++ [Field (take 256 name) value false])
                      (total_chars s + len name + len value)%Z
                      (servers_truncated s)))
  /\ (forall (before after : list entry) (e : entry),
        data = before ++ e :: after ->
        st = foldl (pack_step steam_map)
                   (pack_step steam_map (pack steam_map before) e) after)
  /\ (0 <= servers_truncated st)%Z
  /\ (len (ps_fields st) + servers_truncated st = len data)%Z
  /\ (servers_truncated st = 0%Z -> fields doc = ps_fields st)
  /\ (servers_truncated st <> 0%Z ->
      fields doc
      = ps_fields st
          ++ [Field (lit "Notice")
                    (lit "Truncated: " ++ str_int (servers_truncated st)
                       ++ lit " server(s) omitted.")
                    false])
  /\ (len (title doc) + len (description doc) + fields_len (ps_fields st)
      <= EMBED_TOTAL_MAX)%Z
  /\ approx_len doc
     = (len (title doc) + len (description doc) + fields_len (ps_fields st)
        + (if (servers_truncated st =? 0)%Z then 0
           else len (lit "Notice") + len (notice_value (servers_truncated st))))%Z.
Proof.
  intros st doc.
  destruct (pack_invariant_pack steam_map data) as [Hh Ho Ht Hm Hc].
  fold st in Hh, Ho, Ht, Hm, Hc.
  destruct (make_one_big_embed_fields now data steam_map) as [Hf0 Hf1].
  fold st doc in Hf0, Hf1.
  split; [intros s e; apply pack_step_cases | ].
  split.
  { intros before after e ->. unfold st.
    rewrite pack_app. reflexivity. }
  split; [exact Hm | ].
  split; [exact Hc | ].
  split; [exact Hf0 | ].
  split; [exact Hf1 | ].
  split.
  { change (title doc) with embed_title.
    change (description doc) with embed_description. lia. }
  unfold approx_len.
  destruct (servers_truncated st =? 0)%Z eqn:E.
  - apply Z.eqb_eq in E. rewrite (Hf0 E). lia.
  - apply Z.eqb_neq in E. rewrite (Hf1 E).
    rewrite fields_len_app, fields_len_singleton. simpl. lia.
Qed.

Lemma packing_skips_counts_and_notifies_witness :
  (EMBED_TOTAL_MAX
   < total_chars (pack ∅ (replicate 6 busy_entry))
     + len (server_name busy_entry) + len (make_field_value ∅ busy_entry) + 10)%Z
  /\ pack_step ∅ (pack ∅ (replicate 6 busy_entry)) busy_entry
     = PackState (ps_fields (pack ∅ (replicate 6 busy_entry)))
                 (total_chars (pack ∅ (replicate 6 busy_entry)))
                 (servers_truncated (pack ∅ (replicate 6 busy_entry)) + 1)%Z.
Proof.
  assert (H : (EMBED_TOTAL_MAX
               < total_chars (pack ∅ (replicate 6 busy_entry))
                 + len (server_name busy_entry)
                 + len (make_field_value ∅ busy_entry) + 10)%Z)
    by (vm_compute; reflexivity).
  split; [exact H | ].
  exact (proj1 (proj1 (packing_skips_counts_and_notifies 0 overfull_data ∅)
                      (pack ∅ (replicate 6 busy_entry)) busy_entry) H).
Defined.

(** ** The footer *)

(** The count that the footer shows is the number of all fields of the
    embed, the notice field among them. *)
Lemma make_one_big_embed_footer (now : Z) (data : list entry)
    (steam_map : gmap pystr pystr) :
  let st := pack steam_map data in
  footer_text (make_one_big_embed now data steam_map)
  = footer (len data)
           (len (ps_fields st)
            + (if (servers_truncated st =? 0)%Z then 0 else 1))%Z.
Proof.
  intros st. unfold make_one_big_embed. fold st. cbn [footer_text].
  destruct (servers_truncated st =? 0)%Z.
  - rewrite Z.add_0_r. reflexivity.
  - rewrite len_app. reflexivity.
Qed.

(** C9 fails on the code: for seven busy servers, six server fields are
    included and one server is omitted, and the footer reads "7 total
    (showing 7)": it counts the notice field as a server shown.  The embed
    is within the cap, so it is the reply sent. *)
Theorem footer_counts_notice_field :
  len (ps_fields (pack ∅ (replicate 7 busy_entry))) = 6%Z
  /\ servers_truncated (pack ∅ (replicate 7 busy_entry)) = 1%Z
  /\ footer_text (make_one_big_embed 0 (replicate 7 busy_entry) ∅)
     = lit "Server list " ++ [bullet] ++ lit " 7 total (showing 7)."
  /\ (approx_len (make_one_big_embed 0 (replicate 7 busy_entry) ∅)
      <= EMBED_TOTAL_MAX)%Z.
Proof. vm_compute. repeat split; discriminate. Qed.

(** ** Headers *)

(** C10, as stated, fails in its over-count: for seven busy servers the
    running total after the loop is 5934, and the emitted document, with its
    notice field, has size 5971. *)
Lemma running_total_below_document_counterexample :
  (total_chars (pack ∅ (replicate 7 busy_entry))
   < approx_len (make_one_big_embed 0 (replicate 7 busy_entry) ∅))%Z.
Proof. vm_compute. reflexivity. Qed.

(** C10, amended.  Every field of the emitted document, the notice included,
    has a name of at most 256 characters: a server field carries the first
    256 characters of the server name.  The capacity check and the running
    total use the length of the whole server name, so after the loop the
    running total is at least the size of the title, the description and the
    server fields as emitted.  The notice field is appended after the loop
    and is not in the running total: the size of the whole document is at
    most the running total when no server was omitted, and at most the
    running total plus the size of the notice field otherwise. *)
Theorem headers_truncated_total_overcounts
    (now : Z) (data : list entry) (steam_map : gmap pystr pystr) :
  let st := pack steam_map data in
  let doc := make_one_big_embed now data steam_map in
  Forall (fun f => (len (field_name f) <= 256)%Z) (fields doc)
  /\ (forall (s : pack_state) (e : entry),
        let cost := (total_chars s + len (server_name e)
                     + len (make_field_value steam_map e) + 10)%Z in
        let s' := pack_step steam_map s e in
        ((EMBED_TOTAL_MAX < cost)%Z /\ ps_fields s' = ps_fields s
         /\ total_chars s' = total_chars s)
        \/ ((cost <= EMBED_TOTAL_MAX)%Z
            /\ ps_fields s'
               = ps_fields s
                   ++ [Field (take 256 (server_name e))
                             (make_field_value steam_map e) false]
            /\ total_chars s'
               = (total_chars s + len (server_name e)
                  + len (make_field_value steam_map e))%Z
            /\ (len (take 256 (server_name e)) <= len (server_name e))%Z))
  /\ (len (title doc) + len (description doc) + fields_len (ps_fields st)
      <= total_chars st)%Z
  /\ approx_len doc
     = (len (title doc) + len (description doc) + fields_len (ps_fields st)
        + (if (servers_truncated st =? 0)%Z then 0
           else len (lit "Notice") + len (notice_value (servers_truncated st))))%Z
  /\ (approx_len doc
      <= total_chars st
         + (if (servers_truncated st =? 0)%Z then 0
            else len (lit "Notice")
                 + len (notice_value (servers_truncated st))))%Z.
Proof.
  intros st doc.
  destruct (pack_invariant_pack steam_map data) as [Hh Ho Ht Hm Hc].
  fold st in Hh, Ho, Ht, Hm, Hc.
  destruct (make_one_big_embed_fields now data steam_map) as [Hf0 Hf1].
  fold st doc in Hf0, Hf1.
  assert (Hsize :
            approx_len doc
            = (len (title doc) + len (description doc)
               + fields_len (ps_fields st)
               + (if (servers_truncated st =? 0)%Z then 0
                  else len (lit "Notice")
                       + len (notice_value (servers_truncated st))))%Z).
  { unfold approx_len.
    destruct (servers_truncated st =? 0)%Z eqn:E.
    - apply Z.eqb_eq in E. rewrite (Hf0 E). lia.
    - apply Z.eqb_neq in E. rewrite (Hf1 E).
      rewrite fields_len_app, fields_len_singleton. simpl. lia. }
  split; [ | split; [ | split; [ | split]]].
  - destruct (Z.eq_dec (servers_truncated st) 0%Z) as [E | E].
    + rewrite (Hf0 E). exact Hh.
    + rewrite (Hf1 E). apply Forall_app. split; [exact Hh | ].
      constructor; [ | constructor]. vm_compute. discriminate.
  - intros s e cost s'. subst s'.
    destruct (pack_step_cases steam_map s e) as [Hskip Hadd].
    destruct (Z.lt_ge_cases EMBED_TOTAL_MAX cost) as [Hgt | Hle].
    + left. rewrite (Hskip Hgt). auto.
    + right. rewrite (Hadd Hle).
      split; [exact Hle | ]. split; [reflexivity | ].
      split; [reflexivity | apply len_take_le_len].
  - exact Ho.
  - exact Hsize.
  - rewrite Hsize.
    change (title doc) with embed_title in Ho |- *.
    change (description doc) with embed_description in Ho |- *.
    lia.
Qed.

(** The over-count of the server fields is real: with a server name of 300
    characters the running total is 44 more than the size of what was
    emitted. *)
Example long_name_overcount :
  let data := [Entry (Some (ServerInfo (Some (replicate 300 97%N)) None)) None] in
  total_chars (pack ∅ data) = 372%Z
  /\ approx_len (make_one_big_embed 0 data ∅) = 328%Z.
Proof. vm_compute. split; reflexivity. Qed.

(** ** Determinism of the packing *)

(** C8, as stated, fails: the embed carries the time of its creation, so two
    runs on the same (here empty) snapshot list and name map at different
    instants differ. *)
Lemma make_one_big_embed_clock_counterexample :
  make_one_big_embed 0 [] ∅ <> make_one_big_embed 1 [] ∅.
Proof. intros H. apply (f_equal timestamp) in H. discriminate H. Qed.

(** C8, amended.  Given the same snapshot list and the same name map, two
    runs of [make_one_big_embed] produce the same title, description,
    author, thumbnail, fields and footer; each carries the clock reading of
    its own run as timestamp, so the two embeds are identical when the two
    readings are. *)
Theorem make_one_big_embed_deterministic_up_to_clock
    (now1 now2 : Z) (data : list entry) (steam_map : gmap pystr pystr) :
  let doc1 := make_one_big_embed now1 data steam_map in
  let doc2 := make_one_big_embed now2 data steam_map in
  title doc1 = title doc2
  /\ description doc1 = description doc2
  /\ author_name doc1 = author_name doc2
  /\ author_icon_url doc1 = author_icon_url doc2
  /\ thumbnail_url doc1 = thumbnail_url doc2
  /\ fields doc1 = fields doc2
  /\ footer_text doc1 = footer_text doc2
  /\ timestamp doc1 = now1 /\ timestamp doc2 = now2
  /\ (now1 = now2 <-> doc1 = doc2).
Proof.
  cbv zeta. repeat split; try reflexivity.
  - intros ->. reflexivity.
  - intros H. apply (f_equal timestamp) in H. exact H.
Qed.

(** ** Identity resolution *)

(** *** One reply *)

Lemma absorb_spec (p : item) (w : world) :
  let r := absorb p w in
  issued r.2 = issued w
  /\ (forall sid, is_Some (mapping w !! sid) -> is_Some (mapping r.2 !! sid))
  /\ (forall sid n,
        mapping r.2 !! sid = Some n ->
        mapping w !! sid = Some n
        \/ (p = Summary (Some sid) (Some n) /\ sid <> [] /\ n <> []))
  /\ (forall sid n,
        p = Summary (Some sid) (Some n) -> sid <> [] -> n <> [] ->
        mapping r.2 !! sid = Some n)
  /\ (p <> Malformed -> r.1 = Returned tt).
Proof.
  destruct p as [sid name | ]; cbn zeta.
  - unfold absorb.
    destruct (truthy_str sid && truthy_str name) eqn:Ht.
    + apply andb_true_iff in Ht as [Hs Hn].
      destruct sid as [[ | c s] | ]; try discriminate Hs.
      destruct name as [[ | d t] | ]; try discriminate Hn.
      unfold store. cbn.
      split; [reflexivity | ]. split.
      { intros sid' Hsome.
        destruct (decide (c :: s = sid')) as [<- | Hne].
        - rewrite lookup_insert_eq. eauto.
        - rewrite lookup_insert_ne by exact Hne. exact Hsome. }
      split.
      { intros sid' n Hl.
        destruct (decide (c :: s = sid')) as [<- | Hne].
        - rewrite lookup_insert_eq in Hl. injection Hl as <-.
          right. repeat split; discriminate.
        - rewrite lookup_insert_ne in Hl by exact Hne. left. exact Hl. }
      split; [ | reflexivity].
      intros sid' n [= <- <-] _ _. apply lookup_insert_eq.
    + unfold ret. cbn.
      split; [reflexivity | ]. split; [auto | ]. split; [auto | ].
      split; [ | reflexivity].
      intros sid' n [= -> ->] Hs Hn. exfalso.
      destruct sid' as [ | c s]; [congruence | ].
      destruct n as [ | d t]; [congruence | ]. discriminate Ht.
  - unfold absorb, raise. cbn.
    split; [reflexivity | ]. split; [auto | ]. split; [auto | ].
    split; [discriminate | congruence].
Qed.

Lemma for_each_cons {A} (f : A -> eff unit) (x : A) (rest : list A) (w : world) :
  for_each f (x :: rest) w
  = match f x w with
    | (Returned _, w') => for_each f rest w'
    | (Raised, w') => (Raised, w')
    end.
Proof. reflexivity. Qed.

Lemma for_each_absorb_spec (ps : list item) (w : world) :
  let r := for_each absorb ps w in
  issued r.2 = issued w
  /\ (forall sid, is_Some (mapping w !! sid) -> is_Some (mapping r.2 !! sid))
  /\ (forall sid n,
        mapping r.2 !! sid = Some n ->
        mapping w !! sid = Some n
        \/ (Summary (Some sid) (Some n) ∈ ps /\ sid <> [] /\ n <> []))
  /\ (Malformed ∉ ps ->
      r.1 = Returned tt
      /\ forall sid n,
          Summary (Some sid) (Some n) ∈ ps -> sid <> [] -> n <> [] ->
          is_Some (mapping r.2 !! sid)).
Proof.
  revert w. induction ps as [ | p ps IH]; intros w; cbn zeta.
  - cbn. split; [reflexivity | ]. split; [auto | ]. split; [auto | ].
    intros _. split; [reflexivity | ].
    intros sid n Hin. apply elem_of_nil in Hin. contradiction.
  - rewrite for_each_cons.
    destruct (absorb_spec p w) as (Hi & Hd & Hp & Hs & Hr).
    destruct (absorb p w) as [[[] | ] w'] eqn:Ea; cbn [fst snd] in *.
    + destruct (IH w') as (Hi' & Hd' & Hp' & Hm').
      split; [congruence | ]. split; [auto | ]. split.
      { intros sid n Hl. destruct (Hp' sid n Hl) as [Hl' | (Hin & ? & ?)].
        - destruct (Hp sid n Hl') as [? | (-> & ? & ?)]; [auto | ].
          right. split; [apply list_elem_of_here | auto].
        - right. split; [apply list_elem_of_further, Hin | auto]. }
      intros Hmal.
      assert (Hmal' : Malformed ∉ ps).
      { intros Hin. apply Hmal. apply list_elem_of_further, Hin. }
      destruct (Hm' Hmal') as [Hret Hall].
      split; [exact Hret | ].
      intros sid n Hin Hsid Hn.
      apply elem_of_cons in Hin as [<- | Hin].
      * apply Hd'. rewrite (Hs sid n eq_refl Hsid Hn). eauto.
      * exact (Hall sid n Hin Hsid Hn).
    + split; [exact Hi | ]. split; [exact Hd | ]. split.
      { intros sid n Hl. destruct (Hp sid n Hl) as [? | (-> & ? & ?)]; [auto | ].
        right. split; [apply list_elem_of_here | auto]. }
      intros Hmal. exfalso.
      assert (Hne : p <> Malformed).
      { intros ->. apply Hmal. apply list_elem_of_here. }
      specialize (Hr Hne). discriminate Hr.
Qed.

(** *** One batch, and the pass over all batches *)

Section ResolverFacts.

Variable net : request -> response.

Lemma lookup_chunk_spec (key : pystr) (chunk : list pystr) (w : world) :
  let r := lookup_chunk net key chunk w in
  r.1 = Returned tt
  /\ issued r.2 = issued w ++ [Request key chunk]
  /\ (forall sid, is_Some (mapping w !! sid) -> is_Some (mapping r.2 !! sid))
  /\ (forall sid n,
        mapping r.2 !! sid = Some n ->
        mapping w !! sid = Some n
        \/ (exists ps,
              net (Request key chunk) = Reply 200 (Players ps)
              /\ Summary (Some sid) (Some n) ∈ ps /\ sid <> [] /\ n <> []))
  /\ (forall ps,
        net (Request key chunk) = Reply 200 (Players ps) ->
        Malformed ∉ ps ->
        forall sid n,
          Summary (Some sid) (Some n) ∈ ps -> sid <> [] -> n <> [] ->
          is_Some (mapping r.2 !! sid))
  /\ (failed (net (Request key chunk)) -> mapping r.2 = mapping w).
Proof.
  cbn zeta. unfold lookup_chunk, try_except, bind, session_get.
  destruct (net (Request key chunk)) as [ | status body] eqn:En.
  - cbn. repeat split; auto; discriminate.
  - cbn [fst snd].
    destruct (status =? 200)%Z eqn:Es.
    + apply Z.eqb_eq in Es. subst status.
      destruct body as [ | ps].
      * cbn. repeat split; auto; discriminate.
      * unfold resp_json, ret.
        set (w0 := World (mapping w) (issued w ++ [Request key chunk])).
        destruct (for_each_absorb_spec ps w0) as (Hi & Hd & Hp & Hm).
        destruct (for_each absorb ps w0) as [[[] | ] w'] eqn:Ef;
          cbn [fst snd] in *.
        -- split; [reflexivity | ]. split; [exact Hi | ].
           split; [exact Hd | ]. split.
           { intros sid n Hl. destruct (Hp sid n Hl) as [? | ?]; [auto | ].
             right. exists ps. auto. }
           split.
           { intros ps' [= <-] Hmal. exact (proj2 (Hm Hmal)). }
           intros [Hf | [(s & b & Hf & Hs) | Hf]];
             [discriminate Hf | injection Hf as <- <-; congruence
             | discriminate Hf].
        -- unfold ret. cbn [fst snd].
           split; [reflexivity | ]. split; [exact Hi | ].
           split; [exact Hd | ]. split.
           { intros sid n Hl. destruct (Hp sid n Hl) as [? | ?]; [auto | ].
             right. exists ps. auto. }
           split.
           { intros ps' [= <-] Hmal. destruct (Hm Hmal) as [Hr _].
             discriminate Hr. }
           intros [Hf | [(s & b & Hf & Hs) | Hf]];
             [discriminate Hf | injection Hf as <- <-; congruence
             | discriminate Hf].
    + apply Z.eqb_neq in Es. unfold ret. cbn [fst snd mapping issued].
      split; [reflexivity | ]. split; [reflexivity | ].
      split; [auto | ]. split; [auto | ]. split; [ | reflexivity].
      intros ps [= Hs _]. contradiction.
Qed.

Lemma lookup_pass_spec (key : pystr) (cs : list (list pystr)) (w : world) :
  let r := for_each (lookup_chunk net key) cs w in
  r.1 = Returned tt
  /\ issued r.2 = issued w ++ map (Request key) cs
  /\ (forall sid, is_Some (mapping w !! sid) -> is_Some (mapping r.2 !! sid))
  /\ (forall sid n,
        mapping r.2 !! sid = Some n ->
        mapping w !! sid = Some n
        \/ (exists c ps,
              c ∈ cs /\ net (Request key c) = Reply 200 (Players ps)
              /\ Summary (Some sid) (Some n) ∈ ps /\ sid <> [] /\ n <> []))
  /\ (forall c ps,
        c ∈ cs ->
        net (Request key c) = Reply 200 (Players ps) ->
        Malformed ∉ ps ->
        forall sid n,
          Summary (Some sid) (Some n) ∈ ps -> sid <> [] -> n <> [] ->
          is_Some (mapping r.2 !! sid))
  /\ (Forall (fun c => failed (net (Request key c))) cs ->
      mapping r.2 = mapping w).
Proof.
  revert w. induction cs as [ | c cs IH]; intros w; cbn zeta.
  - cbn. rewrite app_nil_r. repeat split; auto.
    + intros c ps Hin. apply elem_of_nil in Hin. contradiction.
  - rewrite for_each_cons.
    destruct (lookup_chunk_spec key c w) as (Hr & Hi & Hd & Hp & Hm & Hf).
    destruct (lookup_chunk net key c w) as [[[] | ] w'] eqn:El;
      cbn [fst snd] in *; [ | discriminate Hr].
    destruct (IH w') as (Hr' & Hi' & Hd' & Hp' & Hm' & Hf').
    split; [exact Hr' | ]. split.
    { rewrite Hi', Hi. cbn [map]. rewrite <- app_assoc. reflexivity. }
    split; [auto | ]. split.
    { intros sid n Hl.
      destruct (Hp' sid n Hl) as [Hl' | (c' & ps & Hin & ?)].
      - destruct (Hp sid n Hl') as [? | (ps & ?)]; [auto | ].
        right. exists c, ps. split; [apply list_elem_of_here | auto].
      - right. exists c', ps.
        split; [apply list_elem_of_further, Hin | auto]. }
    split.
    { intros c' ps Hin Hnet Hmal sid n Hs Hsid Hn.
      apply elem_of_cons in Hin as [-> | Hin].
      - apply Hd'. exact (Hm ps Hnet Hmal sid n Hs Hsid Hn).
      - exact (Hm' c' ps Hin Hnet Hmal sid n Hs Hsid Hn). }
    intros Hall. apply Forall_cons in Hall as [Hc Hall].
    rewrite (Hf' Hall). exact (Hf Hc).
Qed.

End ResolverFacts.

(** *** Batches *)

Lemma range_step_count (n : nat) :
  let m := (n + (CHUNK - 1)) / CHUNK in
  n <= m * CHUNK /\ (forall k, k < m -> k * CHUNK < n).
Proof.
  unfold CHUNK. cbn zeta.
  pose proof (Nat.div_mod_eq (n + (100 - 1)) 100) as Hdm.
  pose proof (Nat.mod_upper_bound (n + (100 - 1)) 100) as Hub.
  split; [lia | ]. intros k Hk. nia.
Qed.

(** The first [m] slices of width [c] make up the first [m * c] elements. *)
Lemma concat_slices {A} (c m : nat) (l : list A) :
  concat (map (fun i => take c (drop i l)) (map (fun k => k * c) (seq 0 m)))
  = take (m * c) l.
Proof.
  induction m as [ | m IH].
  - reflexivity.
  - rewrite seq_S, !map_app, concat_app, IH. cbn [map concat Nat.add].
    rewrite app_nil_r, take_take_drop. f_equal. lia.
Qed.

(** The batches, one after the other, are the list of identifiers. *)
Lemma chunks_concat (ids : list pystr) : concat (chunks ids) = ids.
Proof.
  unfold chunks, range_step. rewrite concat_slices.
  apply take_ge. apply (range_step_count (length ids)).
Qed.

(** A batch holds at least one and at most [CHUNK] identifiers. *)
Lemma chunks_size (ids : list pystr) :
  Forall (fun c => 0 < length c <= CHUNK) (chunks ids).
Proof.
  unfold chunks, range_step. rewrite map_map.
  apply List.Forall_map. apply List.Forall_forall.
  intros k Hk. apply in_seq in Hk.
  destruct (range_step_count (length ids)) as [_ Hlt].
  specialize (Hlt k ltac:(lia)).
  rewrite length_take, length_drop. unfold CHUNK in *. lia.
Qed.

(** Every batch but the last holds exactly [CHUNK] identifiers. *)
Lemma chunks_full (ids : list pystr) (i : nat) (c : list pystr) :
  chunks ids !! i = Some c -> S i < length (chunks ids) -> length c = CHUNK.
Proof.
  unfold chunks, range_step. rewrite map_map, length_map, length_seq.
  change (map ?f ?l) with (f <$> l).
  intros Hc Hi. rewrite list_lookup_fmap in Hc.
  rewrite lookup_seq_lt in Hc by lia. cbn in Hc. injection Hc as <-.
  destruct (range_step_count (length ids)) as [_ Hlt].
  specialize (Hlt (S i) Hi).
  rewrite length_take, length_drop. unfold CHUNK in *. lia.
Qed.

(** When the batches of a list of requests hold no element twice overall,
    an element that is queried lies in exactly one request. *)
Lemma concat_NoDup_unique {A B} (f : B -> list A) (ls : list B) (x : A) :
  NoDup (concat (map f ls)) -> x ∈ concat (map f ls) ->
  exists before q after,
    ls = before ++ q :: after /\ x ∈ f q
    /\ forall q', q' ∈ before ++ after -> x ∉ f q'.
Proof.
  induction ls as [ | l ls IH]; cbn [concat map]; intros Hnd Hin.
  - apply elem_of_nil in Hin. contradiction.
  - apply NoDup_app in Hnd as (Hl & Hdisj & Hrest).
    apply elem_of_app in Hin as [Hin | Hin].
    + exists [], l, ls. split; [reflexivity | ]. split; [exact Hin | ].
      intros q' Hq' Hx. apply (Hdisj x Hin).
      clear -Hq' Hx. cbn in Hq'. induction ls as [ | l0 ls IH]; cbn.
      * apply elem_of_nil in Hq'. contradiction.
      * apply elem_of_app. apply elem_of_cons in Hq' as [-> | Hq']; auto.
    + destruct (IH Hrest Hin) as (before & q & after & -> & Hx & Hothers).
      exists (l :: before), q, after.
      split; [reflexivity | ]. split; [exact Hx | ].
      intros q' Hq'. cbn in Hq'. apply elem_of_cons in Hq' as [-> | Hq'].
      * intros Hxl. apply (Hdisj x Hxl).
        rewrite map_app, concat_app. apply elem_of_app. right.
        cbn. apply elem_of_app. left. exact Hx.
      * apply Hothers, Hq'.
Qed.

(** *** [resolve_steam_names] *)

Lemma resolve_steam_names_guard
    (key : option pystr) (net : request -> response) (steam_ids : gset pystr) :
  key_present key = false \/ steam_ids = ∅ ->
  resolve_steam_names key net steam_ids = (Returned ∅, []).
Proof.
  intros [Hk | ->]; unfold resolve_steam_names.
  - rewrite Hk. reflexivity.
  - rewrite bool_decide_eq_true_2 by reflexivity.
    rewrite orb_true_r. reflexivity.
Qed.

Lemma resolve_steam_names_run
    (key : option pystr) (net : request -> response) (steam_ids : gset pystr) :
  key_present key = true -> steam_ids <> ∅ ->
  let cs := chunks (elements steam_ids) in
  let r := for_each (lookup_chunk net (default [] key)) cs (World ∅ []) in
  resolve_steam_names key net steam_ids
  = (Returned (mapping r.2), map (Request (default [] key)) cs).
Proof.
  intros Hk Hne cs r. unfold resolve_steam_names.
  rewrite Hk, bool_decide_eq_false_2 by exact Hne. cbn [negb orb].
  fold cs. fold r.
  destruct (lookup_pass_spec net (default [] key) cs (World ∅ []))
    as (Hr & Hi & _).
  fold r in Hr, Hi. destruct r as [[[] | ] w]; cbn [fst snd] in *.
  - rewrite Hi. reflexivity.
  - discriminate Hr.
Qed.

(** [resolve_steam_names] never raises. *)
Lemma resolve_steam_names_returns
    (key : option pystr) (net : request -> response) (steam_ids : gset pystr) :
  exists m, (resolve_steam_names key net steam_ids).1 = Returned m.
Proof.
  destruct (key_present key) eqn:Hk.
  - destruct (decide (steam_ids = ∅)) as [He | Hne].
    + rewrite resolve_steam_names_guard by auto. eauto.
    + rewrite (resolve_steam_names_run key net steam_ids Hk Hne). eauto.
  - rewrite resolve_steam_names_guard by auto. eauto.
Qed.

(** No name of the mapping that [resolve_steam_names] returns is empty. *)
Lemma resolve_steam_names_names_nonempty
    (key : option pystr) (net : request -> response) (steam_ids : gset pystr)
    (m : gmap pystr pystr) :
  (resolve_steam_names key net steam_ids).1 = Returned m ->
  map_Forall (fun _ n => n <> []) m.
Proof.
  destruct (key_present key) eqn:Hk;
    [destruct (decide (steam_ids = ∅)) as [He | Hne] | ].
  - rewrite resolve_steam_names_guard by auto. intros [= <-].
    apply map_Forall_empty.
  - rewrite (resolve_steam_names_run key net steam_ids Hk Hne). cbn [fst].
    intros [= <-] sid n Hl.
    destruct (lookup_pass_spec net (default [] key)
                (chunks (elements steam_ids)) (World ∅ []))
      as (_ & _ & _ & Hp & _).
    destruct (Hp sid n Hl) as [Hl' | (c & ps & _ & _ & _ & _ & Hn)].
    + cbn in Hl'. rewrite lookup_empty in Hl'. discriminate.
    + exact Hn.
  - rewrite resolve_steam_names_guard by auto. intros [= <-].
    apply map_Forall_empty.
Qed.

(** So every name selected against a mapping that [resolve_steam_names]
    returned is non-empty. *)
Lemma choose_player_name_resolved_nonempty
    (key : option pystr) (net : request -> response) (steam_ids : gset pystr)
    (m : gmap pystr pystr) (p : player) :
  (resolve_steam_names key net steam_ids).1 = Returned m ->
  choose_player_name p m <> [].
Proof.
  intros Hm. apply choose_player_name_nonempty.
  exact (resolve_steam_names_names_nonempty key net steam_ids m Hm).
Qed.

(** The requests of a pass, put one after the other, name each identifier
    of the set once, or none when the pass sends nothing; each names between
    1 and [CHUNK] identifiers, and each but the last exactly [CHUNK]. *)
Lemma resolve_steam_names_log
    (key : option pystr) (net : request -> response) (steam_ids : gset pystr) :
  let log := (resolve_steam_names key net steam_ids).2 in
  (log = [] \/ concat (map req_steamids log) = elements steam_ids)
  /\ Forall (fun r => 0 < length (req_steamids r) <= CHUNK) log
  /\ (forall i q,
        log !! i = Some q -> S i < length log ->
        length (req_steamids q) = CHUNK).
Proof.
  cbn zeta.
  destruct (key_present key) eqn:Hk;
    [destruct (decide (steam_ids = ∅)) as [He | Hne] | ].
  - rewrite resolve_steam_names_guard by auto. cbn.
    split; [auto | ]. split; [constructor | ]. intros i q Hq. discriminate Hq.
  - rewrite (resolve_steam_names_run key net steam_ids Hk Hne). cbn [snd].
    split; [ | split].
    + right. rewrite map_map. cbn [req_steamids]. rewrite map_id.
      apply chunks_concat.
    + apply List.Forall_map. cbn [req_steamids]. apply chunks_size.
    + intros i q. rewrite length_map.
      change (map ?f ?l) with (f <$> l). rewrite list_lookup_fmap.
      destruct (chunks (elements steam_ids) !! i) as [c | ] eqn:Hc;
        [ | discriminate].
      intros [= <-] Hi. cbn [req_steamids].
      exact (chunks_full (elements steam_ids) i c Hc Hi).
  - rewrite resolve_steam_names_guard by auto. cbn.
    split; [auto | ]. split; [constructor | ]. intros i q Hq. discriminate Hq.
Qed.

(** The set comprehension of [servers] collects the identifier of every
    player that carries one. *)
Lemma collect_steam_ids_spec (data : list entry) (sid : pystr) :
  sid ∈ collect_steam_ids data
  <-> exists p, p ∈ all_players data /\ player_steam_id p = Some sid.
Proof.
  unfold collect_steam_ids. rewrite elem_of_list_to_set.
  apply list_elem_of_omap.
Qed.

(** The requests that [servers] sends are those of the one call of
    [resolve_steam_names] on the identifiers collected from the fetch. *)
Lemma servers_log
    (key : option pystr) (net : request -> response) (now : Z)
    (r : fetch_response) :
  (servers key net now r).2
  = (resolve_steam_names key net
       (collect_steam_ids (fetch_server_data r))).2.
Proof.
  unfold servers.
  destruct (fetch_server_data r) as [ | e data] eqn:Ed.
  - rewrite resolve_steam_names_guard; [reflexivity | ].
    right. reflexivity.
  - set (ids := collect_steam_ids (e :: data)).
    destruct (decide (ids = ∅)) as [He | Hne].
    + rewrite bool_decide_eq_true_2 by exact He.
      rewrite resolve_steam_names_guard by auto.
      destruct (EMBED_TOTAL_MAX <? _)%Z; reflexivity.
    + rewrite bool_decide_eq_false_2 by exact Hne.
      destruct (resolve_steam_names_returns key net ids) as [m Hm].
      destruct (resolve_steam_names key net ids) as [[m' | ] log];
        cbn [fst snd] in *; [ | discriminate Hm].
      destruct (EMBED_TOTAL_MAX <? _)%Z; reflexivity.
Qed.

Example shared_id_one_request :
  servers (Some (lit "KEY")) dead_net 0 (FetchReply 200 (Some shared_id_data))
  = (Returned
       (SendEmbed
          (make_one_big_embed 0 shared_id_data ∅) (lit "icon.png")),
     [Request (lit "KEY") [lit "76561198000000001"]]).
Proof. vm_compute. reflexivity. Qed.

(** C6. In one run of the command no identifier is queried twice.  The set
    collected from the player records holds exactly the identifiers that
    some player carries, each once however many players carry it; every
    request names between 1 and 100 identifiers, and every request but the
    last exactly 100; over all requests of the run no identifier is named
    twice; and when the key is configured the requests, one after the other,
    name exactly the identifiers of the set, so each identifier of the set
    is in exactly one request. *)
Theorem no_identifier_queried_twice
    (key : option pystr) (net : request -> response) (now : Z)
    (r : fetch_response) :
  let data := fetch_server_data r in
  let steam_ids := collect_steam_ids data in
  let log := (servers key net now r).2 in
  (forall sid,
      sid ∈ elements steam_ids
      <-> exists p, p ∈ all_players data /\ player_steam_id p = Some sid)
  /\ NoDup (elements steam_ids)
  /\ NoDup (concat (map req_steamids log))
  /\ Forall (fun q => 0 < length (req_steamids q) <= 100) log
  /\ (forall i q,
        log !! i = Some q -> S i < length log ->
        length (req_steamids q) = 100)
  /\ (key_present key = true ->
      concat (map req_steamids log) = elements steam_ids
      /\ forall sid,
          sid ∈ steam_ids ->
          exists before q after,
            log = before ++ q :: after /\ sid ∈ req_steamids q
            /\ forall q', q' ∈ before ++ after -> sid ∉ req_steamids q').
Proof.
  intros data steam_ids log.
  assert (Hlog : log = (resolve_steam_names key net steam_ids).2)
    by apply servers_log.
  destruct (resolve_steam_names_log key net steam_ids)
    as (Hcat & Hsize & Hfull).
  rewrite <- Hlog in Hcat, Hsize, Hfull.
  assert (Hnd : NoDup (concat (map req_steamids log))).
  { destruct Hcat as [-> | ->]; [constructor | apply NoDup_elements]. }
  split.
  { intros sid. rewrite elem_of_elements. apply collect_steam_ids_spec. }
  split; [apply NoDup_elements | ].
  split; [exact Hnd | ].
  split; [exact Hsize | ].
  split; [exact Hfull | ].
  intros Hk.
  assert (Heq : concat (map req_steamids log) = elements steam_ids).
  { destruct Hcat as [Hnil | Heq]; [ | exact Heq].
    destruct (decide (steam_ids = ∅)) as [He | Hne].
    - rewrite Hnil, He, elements_empty. reflexivity.
    - rewrite Hlog, (resolve_steam_names_run key net steam_ids Hk Hne).
      cbn [snd]. rewrite map_map. cbn [req_steamids]. rewrite map_id.
      apply chunks_concat. }
  split; [exact Heq | ].
  intros sid Hsid. apply concat_NoDup_unique; [exact Hnd | ].
  rewrite Heq. apply elem_of_elements, Hsid.
Qed.

Lemma no_identifier_queried_twice_witness :
  key_present (Some (lit "KEY")) = true
  /\ concat (map req_steamids
                 (servers (Some (lit "KEY")) dead_net 0
                          (FetchReply 200 (Some shared_id_data))).2)
     = elements (collect_steam_ids shared_id_data).
Proof.
  split; [reflexivity | ].
  exact (proj1 (proj2 (proj2 (proj2 (proj2 (proj2
           (no_identifier_queried_twice
              (Some (lit "KEY")) dead_net 0
              (FetchReply 200 (Some shared_id_data)))))))
           eq_refl)).
Defined.

(** C7. [resolve_steam_names] returns the empty mapping without sending a
    request when the key is absent (or empty) or the identifier set is
    empty.  It never raises.  A batch whose call raises, whose status is not
    200 or whose body does not decode returns normally, leaves the mapping
    as it was and is followed by the remaining batches: with a key and a
    non-empty set, one request per batch is sent whatever the replies.  The
    names of a batch answered with status 200 and a well-formed list are
    merged, whatever happened to the other batches; and every name of the
    returned mapping comes from a batch answered with status 200, so the
    identifiers of the other batches get no name from them. *)
Theorem resolve_steam_names_fail_soft
    (key : option pystr) (net : request -> response) (steam_ids : gset pystr) :
  let result := resolve_steam_names key net steam_ids in
  let k := default [] key in
  let batches := chunks (elements steam_ids) in
  (key_present key = false \/ steam_ids = ∅ -> result = (Returned ∅, []))
  /\ (exists m, result.1 = Returned m)
  /\ (forall chunk w,
        failed (net (Request k chunk)) ->
        lookup_chunk net k chunk w
        = (Returned tt, World (mapping w) (issued w ++ [Request k chunk])))
  /\ (key_present key = true -> steam_ids <> ∅ ->
      result.2 = map (Request k) batches)
  /\ (forall m chunk ps sid name,
        key_present key = true ->
        result.1 = Returned m ->
        chunk ∈ batches ->
        net (Request k chunk) = Reply 200 (Players ps) ->
        Malformed ∉ ps ->
        Summary (Some sid) (Some name) ∈ ps -> sid <> [] -> name <> [] ->
        is_Some (m !! sid))
  /\ (forall m sid name,
        result.1 = Returned m ->
        m !! sid = Some name ->
        name <> []
        /\ exists chunk ps,
            chunk ∈ batches
            /\ net (Request k chunk) = Reply 200 (Players ps)
            /\ Summary (Some sid) (Some name) ∈ ps)
  /\ (forall m,
        result.1 = Returned m ->
        Forall (fun chunk => failed (net (Request k chunk))) batches ->
        m = ∅).
Proof.
  intros result k batches.
  split; [apply resolve_steam_names_guard | ].
  split; [apply resolve_steam_names_returns | ].
  split.
  { intros chunk w Hf.
    destruct (lookup_chunk_spec net k chunk w) as (Hr & Hi & _ & _ & _ & Hm).
    specialize (Hm Hf).
    destruct (lookup_chunk net k chunk w) as [o [m' i']].
    cbn [fst snd mapping issued] in *. subst. reflexivity. }
  split.
  { intros Hk Hne. unfold result.
    rewrite (resolve_steam_names_run key net steam_ids Hk Hne). reflexivity. }
  destruct (key_present key) eqn:Hk;
    [destruct (decide (steam_ids = ∅)) as [He | Hne] | ].
  - unfold result. rewrite resolve_steam_names_guard by auto. cbn [fst].
    assert (Hb : batches = []).
    { unfold batches. rewrite He, elements_empty. reflexivity. }
    split.
    { intros m chunk ps sid name _ _ Hin. rewrite Hb in Hin.
      apply elem_of_nil in Hin. contradiction. }
    split.
    { intros m sid name [= <-] Hl. rewrite lookup_empty in Hl. discriminate. }
    intros m [= <-] _. reflexivity.
  - unfold result.
    rewrite (resolve_steam_names_run key net steam_ids Hk Hne). cbn [fst].
    destruct (lookup_pass_spec net k batches (World ∅ []))
      as (_ & _ & _ & Hp & Hm & Hf).
    cbn [mapping] in Hp, Hf. fold k batches.
    split.
    { intros m chunk ps sid name _ [= <-] Hin Hnet Hmal Hs Hsid Hn.
      exact (Hm chunk ps Hin Hnet Hmal sid name Hs Hsid Hn). }
    split.
    { intros m sid name [= <-] Hl.
      destruct (Hp sid name Hl) as [Hl' | (c & ps & ? & ? & ? & ? & ?)].
      - rewrite lookup_empty in Hl'. discriminate.
      - split; [assumption | eauto]. }
    intros m [= <-]. exact Hf.
  - unfold result. rewrite resolve_steam_names_guard by auto. cbn [fst].
    split; [discriminate | ]. split.
    { intros m sid name [= <-] Hl. rewrite lookup_empty in Hl. discriminate. }
    intros m [= <-] _. reflexivity.
Qed.

Lemma resolve_steam_names_fail_soft_witness :
  (key_present None = false \/ ({[ lit "1" ]} : gset pystr) = ∅)
  /\ resolve_steam_names None flaky_net {[ lit "1" ]} = (Returned ∅, [])
  /\ failed (flaky_net (Request (lit "KEY") [lit "1"]))
  /\ lookup_chunk flaky_net (lit "KEY") [lit "1"] (World ∅ [])
     = (Returned tt, World ∅ [Request (lit "KEY") [lit "1"]]).
Proof.
  assert (Hg : key_present None = false \/ ({[ lit "1" ]} : gset pystr) = ∅)
    by (left; reflexivity).
  assert (Hf : failed (flaky_net (Request (lit "KEY") [lit "1"]))).
  { right. left. exists 503%Z, BadJson. split; [reflexivity | discriminate]. }
  split; [exact Hg | ].
  split.
  { exact (proj1 (resolve_steam_names_fail_soft None flaky_net {[ lit "1" ]})
                 Hg). }
  split; [exact Hf | ].
  exact (proj1 (proj2 (proj2
           (resolve_steam_names_fail_soft (Some (lit "KEY")) flaky_net
                                          {[ lit "1" ]})))
           [lit "1"] (World ∅ []) Hf).
Defined.

(** The first batch fails, the second is still sent and merged. *)
Example failed_batch_does_not_abort :
  let result := resolve_steam_names (Some (lit "KEY")) picky_net many_ids in
  map (fun q => (length (req_steamids q),
                 bool_decide (lit "1" ∈ req_steamids q))) result.2
  = [(100, true); (1, false)]
  /\ exists m, result.1 = Returned m /\ size m = 1 /\ m !! lit "1" = None.
Proof.
  cbv zeta. split; [vm_compute; reflexivity | ].
  eexists. split; [vm_compute; reflexivity | ].
  split; vm_compute; reflexivity.
Qed.

(** Without the key, the identifiers of the records go unresolved and the
    names are synthesized, with no request sent. *)
Example no_key_no_request :
  servers None picky_net 0 (FetchReply 200 (Some shared_id_data))
  = (Returned (SendEmbed (make_one_big_embed 0 shared_id_data ∅)
                         (lit "icon.png")), [])
  /\ choose_player_name steam_only_player ∅ = lit "steam:00000001".
Proof. split; vm_compute; reflexivity. Qed.

(** ** The reply *)

(** The three replies of [servers]. *)
Lemma servers_reply
    (key : option pystr) (net : request -> response) (now : Z)
    (r : fetch_response) :
  let data := fetch_server_data r in
  exists steam_map log,
    let doc := make_one_big_embed now data steam_map in
    servers key net now r
    = (Returned
         (if bool_decide (data = []) then SendText no_servers_message
          else if (EMBED_TOTAL_MAX <? approx_len doc)%Z
               then SendText too_large_message
               else SendEmbed doc (lit "icon.png")),
       log).
Proof.
  cbn zeta. unfold servers.
  destruct (fetch_server_data r) as [ | e data] eqn:Ed.
  - exists ∅, []. reflexivity.
  - assert (Hb : bool_decide (e :: data = []) = false)
      by (apply bool_decide_eq_false_2; discriminate).
    set (ids := collect_steam_ids (e :: data)).
    destruct (bool_decide (ids = ∅)).
    + exists ∅, []. rewrite Hb.
      destruct (EMBED_TOTAL_MAX <? _)%Z; reflexivity.
    + destruct (resolve_steam_names_returns key net ids) as [m Hm].
      destruct (resolve_steam_names key net ids) as [[m' | ] log];
        cbn [fst] in Hm; [ | discriminate Hm].
      exists m', log. rewrite Hb.
      destruct (EMBED_TOTAL_MAX <? _)%Z; reflexivity.
Qed.

(** C1. Whatever the fetch, the lookup service, the key and the clock,
    [servers] sends exactly one reply and never raises: the "no servers"
    message, the "too large" message, or a document whose total size (title
    plus description plus the names and values of its fields) is at most
    6000.  No document over the cap is sent. *)
Theorem servers_never_sends_over_cap
    (key : option pystr) (net : request -> response) (now : Z)
    (r : fetch_response) :
  exists rep log,
    servers key net now r = (Returned rep, log)
    /\ (rep = SendText no_servers_message
        \/ rep = SendText too_large_message
        \/ exists doc file,
            rep = SendEmbed doc file
            /\ (len (title doc) + len (description doc)
                + foldr Z.add 0%Z
                    (map (fun f => len (field_name f) + len (field_value f))%Z
                         (fields doc))
                <= 6000)%Z).
Proof.
  destruct (servers_reply key net now r) as (steam_map & log & Heq).
  cbn zeta in Heq. rewrite Heq. eexists _, log. split; [reflexivity | ].
  destruct (bool_decide (fetch_server_data r = [])); [left; reflexivity | ].
  right.
  destruct (EMBED_TOTAL_MAX <? approx_len _)%Z eqn:Hcmp;
    [left; reflexivity | right].
  apply Z.ltb_ge in Hcmp. eexists _, _. split; [reflexivity | ].
  exact Hcmp.
Qed.

(** The fallback is reachable: on [overfull_data] the document has size 6008
    and the reply is the "too large" message. *)
Example servers_too_large :
  servers None dead_net 0 (FetchReply 200 (Some overfull_data))
  = (Returned (SendText too_large_message), []).
Proof. vm_compute. reflexivity. Qed.

Example servers_no_data :
  servers None dead_net 0 FetchRaised
  = (Returned (SendText no_servers_message), [])
  /\ servers None dead_net 0 (FetchReply 404 (Some overfull_data))
     = (Returned (SendText no_servers_message), []).
Proof. split; reflexivity. Qed.

(** With one server and no players the value is the summary line. *)
Example one_server_no_players :
  make_field_value ∅ (Entry (Some (ServerInfo (Some (lit "dm"))
                                              (Some (PStr (lit "1.0")))))
                            (Some []))
  = lit "Players: 0 " ++ [bullet] ++ lit " version `1.0`".
Proof. reflexivity. Qed.


(** ** The name map of a run *)

(** The reply of [servers] in terms of the name map of the run. *)
Lemma servers_reply_run
    (key : option pystr) (net : request -> response) (now : Z)
    (r : fetch_response) :
  let data := fetch_server_data r in
  let doc := make_one_big_embed now data (run_steam_map key net r) in
  (servers key net now r).1
  = Returned
      (if bool_decide (data = []) then SendText no_servers_message
       else if (EMBED_TOTAL_MAX <? approx_len doc)%Z
            then SendText too_large_message
            else SendEmbed doc (lit "icon.png")).
Proof.
  cbn zeta. unfold servers, run_steam_map.
  destruct (fetch_server_data r) as [ | e data] eqn:Ed.
  - reflexivity.
  - rewrite (bool_decide_eq_false_2 (e :: data = [])) by discriminate.
    set (ids := collect_steam_ids (e :: data)).
    destruct (bool_decide (ids = ∅)).
    + destruct (EMBED_TOTAL_MAX <? _)%Z; reflexivity.
    + destruct (resolve_steam_names_returns key net ids) as [m Hm].
      destruct (resolve_steam_names key net ids) as [[m' | ] log];
        cbn [fst] in Hm |- *; [ | discriminate Hm].
      destruct (EMBED_TOTAL_MAX <? _)%Z; reflexivity.
Qed.

(** The name map of a run holds no empty name. *)
Lemma run_steam_map_names_nonempty
    (key : option pystr) (net : request -> response) (r : fetch_response) :
  map_Forall (fun _ n => n <> []) (run_steam_map key net r).
Proof.
  unfold run_steam_map. cbv zeta.
  destruct (bool_decide _); [apply map_Forall_empty | ].
  destruct (resolve_steam_names key net _).1 as [m | ] eqn:Hm;
    [ | apply map_Forall_empty].
  exact (resolve_steam_names_names_nonempty key net _ m Hm).
Qed.

(** C5. Name selection is total and deterministic on every input it
    receives.  For every player record it returns a non-empty string
    against the empty name map, against the map that [resolve_steam_names]
    returns (which it always does) for any key, lookup service and
    identifier set, and so against the name map of every run of [servers];
    and on the same record and the same name map it returns the same
    string. *)
Theorem choose_player_name_total_on_every_run
    (key : option pystr) (net : request -> response) (r : fetch_response)
    (steam_ids : gset pystr) (p : player) :
  choose_player_name p ∅ <> []
  /\ (exists steam_map,
        (resolve_steam_names key net steam_ids).1 = Returned steam_map
        /\ choose_player_name p steam_map <> [])
  /\ choose_player_name p (run_steam_map key net r) <> []
  /\ (forall (p' : player) (steam_map steam_map' : gmap pystr pystr),
        p = p' -> steam_map = steam_map' ->
        choose_player_name p steam_map = choose_player_name p' steam_map').
Proof.
  split; [ | split; [ | split]].
  - apply choose_player_name_nonempty, map_Forall_empty.
  - destruct (resolve_steam_names_returns key net steam_ids) as [m Hm].
    exists m. split; [exact Hm | ].
    apply choose_player_name_nonempty.
    exact (resolve_steam_names_names_nonempty key net steam_ids m Hm).
  - apply choose_player_name_nonempty, run_steam_map_names_nonempty.
  - intros p' steam_map steam_map' -> ->. reflexivity.
Qed.

(** A run in which the lookup service resolves the identifier of the
    players: the name selected is the resolved one. *)
Example choose_player_name_on_resolved_run :
  run_steam_map (Some (lit "KEY")) echo_net
                (FetchReply 200 (Some shared_id_data))
  = {[ lit "76561198000000001" := lit "n76561198000000001" ]}
  /\ choose_player_name
       steam_only_player
       (run_steam_map (Some (lit "KEY")) echo_net
                      (FetchReply 200 (Some shared_id_data)))
     = lit "n76561198000000001".
Proof. split; vm_compute; reflexivity. Qed.

(** * Further properties *)

(** ** Packing: order, completeness, sizes *)

Lemma data_cost_app (steam_map : gmap pystr pystr) (d1 d2 : list entry) :
  data_cost steam_map (d1 ++ d2)
  = (data_cost steam_map d1 + data_cost steam_map d2)%Z.
Proof.
  unfold data_cost. induction d1 as [ | e d1 IH]; cbn [app map foldr].
  - lia.
  - rewrite IH. lia.
Qed.

Lemma data_cost_nonneg (steam_map : gmap pystr pystr) (data : list entry) :
  (0 <= data_cost steam_map data)%Z.
Proof.
  unfold data_cost. induction data as [ | e data IH]; cbn [map foldr]; [lia | ].
  pose proof (len_nonneg (server_name e)).
  pose proof (len_nonneg (make_field_value steam_map e)). lia.
Qed.

(** The server fields of the document are fields of servers of the input,
    in the order of the input: the loop reorders nothing, repeats nothing
    and invents nothing; before the notice field, if any, the document
    holds only those. *)
Theorem packed_fields_in_fetch_order
    (now : Z) (data : list entry) (steam_map : gmap pystr pystr) :
  let st := pack steam_map data in
  ps_fields st `sublist_of` map (server_field steam_map) data
  /\ ps_fields st `prefix_of` fields (make_one_big_embed now data steam_map).
Proof.
  cbn zeta. split.
  - induction data as [ | e data IH] using rev_ind.
    + apply sublist_nil_l.
    + rewrite pack_snoc, map_app. cbn [map].
      destruct (pack_step_cases steam_map (pack steam_map data) e)
        as [Hskip Hadd].
      destruct (Z.lt_ge_cases EMBED_TOTAL_MAX
                  (total_chars (pack steam_map data) + len (server_name e)
                   + len (make_field_value steam_map e) + 10)) as [Hgt | Hle].
      * rewrite (Hskip Hgt). cbn [ps_fields].
        apply sublist_inserts_r, IH.
      * rewrite (Hadd Hle). cbn [ps_fields].
        apply sublist_app; [exact IH | reflexivity].
  - destruct (make_one_big_embed_fields now data steam_map) as [Hf0 Hf1].
    destruct (Z.eq_dec (servers_truncated (pack steam_map data)) 0%Z)
      as [E | E].
    + rewrite (Hf0 E). reflexivity.
    + rewrite (Hf1 E). apply prefix_app_r. reflexivity.
Qed.

(** What the loop does while everything fits. *)
Lemma pack_all_fit (steam_map : gmap pystr pystr) (data : list entry) :
  (len embed_title + len embed_description + data_cost steam_map data + 10
   <= EMBED_TOTAL_MAX)%Z ->
  pack steam_map data
  = PackState (map (server_field steam_map) data)
              (len embed_title + len embed_description
               + data_cost steam_map data)%Z
              0%Z.
Proof.
  induction data as [ | e data IH] using rev_ind; intros Hfit.
  - unfold pack, pack_init, data_cost. cbn [foldl map foldr].
    rewrite Z.add_0_r. reflexivity.
  - rewrite data_cost_app in Hfit |- *.
    assert (He : data_cost steam_map [e]
                 = (len (server_name e)
                    + len (make_field_value steam_map e))%Z).
    { unfold data_cost. cbn [map foldr]. lia. }
    rewrite He in Hfit |- *.
    pose proof (len_nonneg (server_name e)).
    pose proof (len_nonneg (make_field_value steam_map e)).
    rewrite pack_snoc, IH by lia.
    destruct (pack_step_cases steam_map
                (PackState (map (server_field steam_map) data)
                           (len embed_title + len embed_description
                            + data_cost steam_map data)%Z 0%Z) e)
      as [_ Hadd].
    cbn [total_chars ps_fields servers_truncated] in Hadd.
    rewrite Hadd by lia. rewrite map_app. cbn [map].
    unfold server_field at 3. f_equal. lia.
Qed.

(** When the title, the description, all server names and all field values
    together with the padding of 10 fit the cap, no server is omitted: the
    document holds one field per server, in order, and no notice; the footer
    shows the number of servers twice; and the document is within the
    cap. *)
Theorem nothing_omitted_when_all_fit
    (now : Z) (data : list entry) (steam_map : gmap pystr pystr) :
  (len embed_title + len embed_description + data_cost steam_map data + 10
   <= EMBED_TOTAL_MAX)%Z ->
  let doc := make_one_big_embed now data steam_map in
  servers_truncated (pack steam_map data) = 0%Z
  /\ fields doc = map (server_field steam_map) data
  /\ footer_text doc = footer (len data) (len data)
  /\ (approx_len doc <= EMBED_TOTAL_MAX)%Z.
Proof.
  intros Hfit doc.
  pose proof (pack_all_fit steam_map data Hfit) as Hp.
  assert (Ht : servers_truncated (pack steam_map data) = 0%Z)
    by (rewrite Hp; reflexivity).
  assert (Hf : fields doc = map (server_field steam_map) data).
  { unfold doc.
    rewrite (proj1 (make_one_big_embed_fields now data steam_map) Ht), Hp.
    reflexivity. }
  split; [exact Ht | ]. split; [exact Hf | ]. split.
  - unfold doc. rewrite make_one_big_embed_footer, Ht, Hp.
    cbn [ps_fields Z.eqb]. rewrite Z.add_0_r. unfold len.
    rewrite length_map. reflexivity.
  - destruct (pack_invariant_pack steam_map data) as [_ Ho Htot _ _].
    unfold approx_len. rewrite Hf.
    rewrite Hp in Ho, Htot. cbn [ps_fields total_chars] in Ho, Htot.
    change (title doc) with embed_title.
    change (description doc) with embed_description. lia.
Qed.

Lemma nothing_omitted_when_all_fit_witness :
  (len embed_title + len embed_description + data_cost ∅ two_small_servers + 10
   <= EMBED_TOTAL_MAX)%Z
  /\ fields (make_one_big_embed 0 two_small_servers ∅)
     = map (server_field ∅) two_small_servers.
Proof.
  assert (H : (len embed_title + len embed_description
               + data_cost ∅ two_small_servers + 10 <= EMBED_TOTAL_MAX)%Z)
    by (vm_compute; discriminate).
  split; [exact H | ].
  exact (proj1 (proj2 (nothing_omitted_when_all_fit 0 two_small_servers ∅ H))).
Defined.

(** With no player, the value has 23 characters more than the rendered
    version, so it is within the cap exactly when the rendered version has
    at most 1001 characters. *)
Theorem no_players_value_length
    (steam_map : gmap pystr pystr) (e : entry) :
  default [] (entry_players e) = [] ->
  len (make_field_value steam_map e)
  = (23 + len (py_str (server_version e)))%Z
  /\ ((len (make_field_value steam_map e) <= FIELD_VALUE_MAX)%Z
      <-> (len (py_str (server_version e)) <= 1001)%Z).
Proof.
  intros Hp. rewrite (make_field_value_no_players steam_map e Hp).
  assert (Hlen : len (summary_line 0 (server_version e))
                 = (23 + len (py_str (server_version e)))%Z).
  { unfold summary_line. rewrite !len_app.
    change (len (lit "Players: ")) with 9%Z.
    change (len (str_int 0)) with 1%Z.
    change (len (lit " ")) with 1%Z.
    change (len [bullet]) with 1%Z.
    change (len (lit " version `")) with 10%Z.
    change (len (lit "`")) with 1%Z. lia. }
  rewrite Hlen. unfold FIELD_VALUE_MAX. split; [reflexivity | lia].
Qed.

Lemma no_players_value_length_witness :
  default [] (entry_players long_version_entry) = []
  /\ len (make_field_value ∅ long_version_entry)
     = (23 + len (py_str (server_version long_version_entry)))%Z.
Proof.
  split; [reflexivity | ].
  exact (proj1 (no_players_value_length ∅ long_version_entry eq_refl)).
Defined.

Lemma make_field_value_players_witness :
  entry_players busy_entry
  = Some ((∅ : player) :: replicate 15 (∅ : player))
  /\ (len (make_field_value ∅ busy_entry) <= FIELD_VALUE_MAX)%Z.
Proof.
  split; [reflexivity | ].
  exact (proj2 (proj2 (make_field_value_players
                         ∅ busy_entry ∅ (replicate 15 ∅) eq_refl))).
Defined.

(** A server with enough players for its lines to pass the cap. *)
Example crowded_server_truncated :
  let e := Entry None (Some (replicate 40 (∅ : player))) in
  len (make_field_value ∅ e) = 1010%Z
  /\ drop 994 (make_field_value ∅ e) = truncation_marker.
Proof. vm_compute. split; reflexivity. Qed.

(** With no server omitted the document is within the cap. *)
Lemma within_cap_when_nothing_omitted
    (now : Z) (data : list entry) (steam_map : gmap pystr pystr) :
  servers_truncated (pack steam_map data) = 0%Z ->
  (approx_len (make_one_big_embed now data steam_map) <= EMBED_TOTAL_MAX)%Z.
Proof.
  intros Ht.
  destruct (pack_invariant_pack steam_map data) as [_ Ho Htot _ _].
  unfold approx_len.
  rewrite (proj1 (make_one_big_embed_fields now data steam_map) Ht).
  change (title (make_one_big_embed now data steam_map)) with embed_title.
  change (description (make_one_big_embed now data steam_map))
    with embed_description.
  lia.
Qed.

(** The "too large" reply is sent only when the packing of that run, with
    the name map of that run, omitted a server: it is the notice field that
    takes the document over the cap. *)
Theorem too_large_only_after_omission
    (key : option pystr) (net : request -> response) (now : Z)
    (r : fetch_response) :
  (servers key net now r).1 = Returned (SendText too_large_message) ->
  let steam_map := run_steam_map key net r in
  servers_truncated (pack steam_map (fetch_server_data r)) <> 0%Z
  /\ (EMBED_TOTAL_MAX
      < approx_len (make_one_big_embed now (fetch_server_data r) steam_map))%Z.
Proof.
  rewrite servers_reply_run. cbv zeta.
  destruct (bool_decide (fetch_server_data r = [])).
  { discriminate. }
  destruct (EMBED_TOTAL_MAX <? approx_len _)%Z eqn:Hcmp; [ | discriminate].
  intros _. apply Z.ltb_lt in Hcmp.
  split; [ | exact Hcmp].
  intros Ht.
  pose proof (within_cap_when_nothing_omitted
                now (fetch_server_data r) (run_steam_map key net r) Ht). lia.
Qed.

Lemma too_large_only_after_omission_witness :
  (servers None dead_net 0 (FetchReply 200 (Some overfull_data))).1
  = Returned (SendText too_large_message)
  /\ servers_truncated
       (pack (run_steam_map None dead_net (FetchReply 200 (Some overfull_data)))
             (fetch_server_data (FetchReply 200 (Some overfull_data))))
     <> 0%Z.
Proof.
  assert (H : (servers None dead_net 0
                 (FetchReply 200 (Some overfull_data))).1
              = Returned (SendText too_large_message))
    by (vm_compute; reflexivity).
  split; [exact H | ].
  exact (proj1 (too_large_only_after_omission
                  None dead_net 0 (FetchReply 200 (Some overfull_data)) H)).
Defined.

(** ** Runs without lookup *)

(** Without a key, or when no player carries an identifier, [servers] sends
    no lookup request and builds the document with the empty name map,
    whatever the lookup service would answer. *)
Theorem no_lookup_without_key_or_identifier
    (key : option pystr) (net : request -> response) (now : Z)
    (r : fetch_response) :
  key_present key = false \/ collect_steam_ids (fetch_server_data r) = ∅ ->
  let data := fetch_server_data r in
  let doc := make_one_big_embed now data ∅ in
  (servers key net now r).2 = []
  /\ (data <> [] ->
      (servers key net now r).1
      = Returned (if (EMBED_TOTAL_MAX <? approx_len doc)%Z
                  then SendText too_large_message
                  else SendEmbed doc (lit "icon.png"))).
Proof.
  intros Hno. cbn zeta. unfold servers.
  destruct (fetch_server_data r) as [ | e rest] eqn:Ed.
  - split; [reflexivity | congruence].
  - assert (Hres : (if bool_decide (collect_steam_ids (e :: rest) = ∅)
                    then (Returned ∅, [])
                    else resolve_steam_names key net
                           (collect_steam_ids (e :: rest)))
                   = (Returned (∅ : gmap pystr pystr), [])).
    { destruct (bool_decide (collect_steam_ids (e :: rest) = ∅));
        [reflexivity | ].
      apply resolve_steam_names_guard. exact Hno. }
    rewrite Hres.
    destruct (EMBED_TOTAL_MAX <? approx_len _)%Z;
      (split; [reflexivity | intros _; reflexivity]).
Qed.

Lemma no_lookup_without_key_or_identifier_witness :
  (key_present None = false
   \/ collect_steam_ids
        (fetch_server_data (FetchReply 200 (Some shared_id_data))) = ∅)
  /\ (servers None picky_net 0 (FetchReply 200 (Some shared_id_data))).2 = [].
Proof.
  assert (H : key_present None = false
              \/ collect_steam_ids
                   (fetch_server_data (FetchReply 200 (Some shared_id_data)))
                 = ∅) by (left; reflexivity).
  split; [exact H | ].
  exact (proj1 (no_lookup_without_key_or_identifier
                  None picky_net 0 (FetchReply 200 (Some shared_id_data)) H)).
Defined.

(** ** Player lines *)

Lemma team_map_lookup (code : pystr) :
  team_map !! code
  = if bool_decide (code = lit "0") then Some (lit "Free For All")
    else if bool_decide (code = lit "1") then Some (lit "Free For All")
    else if bool_decide (code = lit "2") then Some (lit "Rebel")
    else if bool_decide (code = lit "3") then Some (lit "Combine")
    else None.
Proof.
  destruct (decide (code = lit "0")) as [-> | H0]; [reflexivity | ].
  destruct (decide (code = lit "1")) as [-> | H1]; [reflexivity | ].
  destruct (decide (code = lit "2")) as [-> | H2]; [reflexivity | ].
  destruct (decide (code = lit "3")) as [-> | H3]; [reflexivity | ].
  rewrite !bool_decide_eq_false_2 by assumption.
  apply not_elem_of_list_to_map_1. cbn [fmap list_fmap fst].
  intros Hin. repeat (apply elem_of_cons in Hin as [Hin | Hin]; [congruence | ]).
  apply elem_of_nil in Hin. exact Hin.
Qed.

(** The line starts with the name in bold and the team label: ["n/a"] when
    [teamIdx] is absent, the label of the table when [str(teamIdx)] is one
    of the codes "0", "1", "2", "3" (a number or a string alike), and
    [str(teamIdx)] itself for any other value. *)
Theorem compact_player_line_team_label (p : player) (name : pystr) :
  let dash := lit " " ++ [emdash] ++ lit " " in
  let starts_with label :=
    (lit "**" ++ name ++ lit "**" ++ dash ++ label ++ dash)
      `prefix_of` compact_player_line p name in
  (p !! lit "teamIdx" = None -> starts_with (lit "n/a"))
  /\ (forall v,
        p !! lit "teamIdx" = Some v ->
        (py_str v = lit "0" \/ py_str v = lit "1" ->
           starts_with (lit "Free For All"))
        /\ (py_str v = lit "2" -> starts_with (lit "Rebel"))
        /\ (py_str v = lit "3" -> starts_with (lit "Combine"))
        /\ (py_str v ∉ [lit "0"; lit "1"; lit "2"; lit "3"] ->
            starts_with (py_str v))).
Proof.
  cbn zeta.
  assert (Hshape : forall team rest,
             (lit "**" ++ name ++ lit "**" ++ (lit " " ++ [emdash] ++ lit " ")
                ++ team ++ lit " " ++ [emdash] ++ lit " ")
               `prefix_of`
             (lit "**" ++ name ++ lit "**" ++ (lit " " ++ [emdash] ++ lit " ")
                ++ team ++ (lit " " ++ [emdash] ++ lit " ") ++ rest)).
  { intros team rest. exists rest. rewrite <- !app_assoc. reflexivity. }
  unfold compact_player_line, get_or. split.
  - intros ->. cbn [default from_option id].
    change (py_str na) with (lit "n/a").
    rewrite team_map_lookup. cbn [bool_decide]. apply Hshape.
  - intros v ->. cbn [default from_option id].
    rewrite team_map_lookup. repeat split.
    + intros [-> | ->]; apply Hshape.
    + intros ->. apply Hshape.
    + intros ->. apply Hshape.
    + intros Hnot.
      repeat (case_bool_decide;
              [exfalso; apply Hnot;
               match goal with H : py_str v = _ |- _ => rewrite H end;
               set_solver | ]).
      apply Hshape.
Qed.

Lemma compact_player_line_team_label_witness :
  ({[ lit "teamIdx" := PInt 2 ]} : player) !! lit "teamIdx" = Some (PInt 2)
  /\ py_str (PInt 2) = lit "2"
  /\ (lit "**bob**" ++ lit " " ++ [emdash] ++ lit " Rebel " ++ [emdash]
        ++ lit " ")
       `prefix_of`
     compact_player_line {[ lit "teamIdx" := PInt 2 ]} (lit "bob").
Proof.
  assert (H : ({[ lit "teamIdx" := PInt 2 ]} : player) !! lit "teamIdx"
              = Some (PInt 2)) by reflexivity.
  split; [exact H | ]. split; [reflexivity | ].
  exact (proj1 (proj2 (proj2 (compact_player_line_team_label
                                {[ lit "teamIdx" := PInt 2 ]} (lit "bob"))
                             (PInt 2) H))
               eq_refl).
Defined.

(** A record without any of the keys of the line renders every statistic as
    ["n/a"] and the weapon as ["none"].  Whatever the other fields, a weapon
    that is absent or falsy (null, the empty string, 0) renders as
    ["none"], and a truthy one as its [str()]. *)
Theorem compact_player_line_defaults (p : player) (name : pystr) :
  ((forall k, k ∈ line_keys -> p !! k = None) ->
   compact_player_line p name
   = lit "**" ++ name
       ++ lit "** " ++ [emdash] ++ lit " n/a " ++ [emdash]
       ++ lit " n/aHP/n/aAR " ++ [emdash] ++ lit " n/aK/n/aD " ++ [emdash]
       ++ lit " n/ams " ++ [emdash] ++ lit " none")
  /\ (py_bool (get p (lit "weapon")) = false ->
      (lit " " ++ [emdash] ++ lit " none")
        `suffix_of` compact_player_line p name)
  /\ (py_bool (get p (lit "weapon")) = true ->
      (lit " " ++ [emdash] ++ lit " " ++ py_str (get p (lit "weapon")))
        `suffix_of` compact_player_line p name).
Proof.
  split; [ | split].
  - intros Hnone. unfold compact_player_line, get_or, get.
    rewrite !Hnone by (unfold line_keys; set_solver).
    cbn [default from_option id]. rewrite team_map_lookup. reflexivity.
  - intros Hw. unfold compact_player_line. rewrite (py_or_falsy _ _ Hw).
    cbv zeta. do 18 apply suffix_app_r. exists []. reflexivity.
  - intros Hw. unfold compact_player_line. rewrite (py_or_truthy _ _ Hw).
    cbv zeta. do 18 apply suffix_app_r. exists []. reflexivity.
Qed.

Lemma compact_player_line_defaults_witness :
  py_bool (get {[ lit "weapon" := PStr [] ]} (lit "weapon")) = false
  /\ (lit " " ++ [emdash] ++ lit " none")
       `suffix_of` compact_player_line {[ lit "weapon" := PStr [] ]} (lit "bob").
Proof.
  split; [reflexivity | ].
  exact (proj1 (proj2 (compact_player_line_defaults
                         {[ lit "weapon" := PStr [] ]} (lit "bob")))
               eq_refl).
Defined.

(** The line reads the record only at the seven keys of [line_keys]: two
    records that agree there give the same line. *)
Theorem compact_player_line_reads_only_line_keys
    (p p' : player) (name : pystr) :
  (forall k, k ∈ line_keys -> p !! k = p' !! k) ->
  compact_player_line p name = compact_player_line p' name.
Proof.
  intros Hagree. unfold compact_player_line, get_or, get.
  rewrite !Hagree by (unfold line_keys; set_solver). reflexivity.
Qed.

Lemma compact_player_line_reads_only_line_keys_witness :
  compact_player_line {[ lit "name" := PStr (lit "bob") ]} (lit "bob")
  = compact_player_line ∅ (lit "bob").
Proof.
  apply compact_player_line_reads_only_line_keys.
  intros k Hk. rewrite lookup_empty. apply lookup_singleton_ne.
  intros <-. unfold line_keys in Hk.
  repeat (apply elem_of_cons in Hk as [Hk | Hk]; [discriminate Hk | ]).
  apply elem_of_nil in Hk. exact Hk.
Defined.

(** ** Name selection and identifier collection *)

Lemma first_local_name_ext (p p' : player) (keys : list pystr) :
  (forall k, k ∈ keys -> p !! k = p' !! k) ->
  first_local_name p keys = first_local_name p' keys.
Proof.
  induction keys as [ | key keys IH]; intros Hagree; [reflexivity | ].
  cbn [first_local_name]. unfold get.
  rewrite (Hagree key) by apply list_elem_of_here.
  rewrite IH; [reflexivity | ].
  intros k Hk. apply Hagree, list_elem_of_further, Hk.
Qed.

(** Name selection reads the record only at the seven name keys, [steamId],
    [steam_id] and [userId], and the name map only at the identifier of the
    record: records that agree on those keys, with maps that agree on that
    identifier, get the same name. *)
Theorem choose_player_name_reads_only_identity_keys
    (p p' : player) (steam_map steam_map' : gmap pystr pystr) :
  (forall k, k ∈ identity_keys -> p !! k = p' !! k) ->
  steam_map !! steamid_of p = steam_map' !! steamid_of p ->
  choose_player_name p steam_map = choose_player_name p' steam_map'.
Proof.
  intros Hagree Hmap.
  assert (Hnames : first_local_name p name_keys
                   = first_local_name p' name_keys).
  { apply first_local_name_ext. intros k Hk. apply Hagree.
    unfold identity_keys. apply elem_of_app. left. exact Hk. }
  assert (Hid : steamid_of p = steamid_of p').
  { unfold steamid_of, get.
    rewrite !Hagree by (unfold identity_keys; set_solver). reflexivity. }
  assert (Huid : p !! lit "userId" = p' !! lit "userId").
  { apply Hagree. unfold identity_keys. set_solver. }
  unfold choose_player_name. rewrite <- Hnames, <- Hid, <- Huid.
  destruct (first_local_name p name_keys); [reflexivity | ].
  cbv zeta. destruct (steamid_of p); [reflexivity | ].
  rewrite Hmap. reflexivity.
Qed.

Lemma choose_player_name_reads_only_identity_keys_witness :
  choose_player_name (<[ lit "kills" := PInt 3 ]> steam_only_player) ∅
  = choose_player_name steam_only_player {[ lit "7" := lit "eli" ]}.
Proof.
  apply choose_player_name_reads_only_identity_keys.
  - intros k Hk. apply lookup_insert_ne. intros <-.
    unfold identity_keys, name_keys in Hk. cbn [app] in Hk.
    repeat (apply elem_of_cons in Hk as [Hk | Hk]; [discriminate Hk | ]).
    apply elem_of_nil in Hk. exact Hk.
  - reflexivity.
Defined.

(** The identifier under which [choose_player_name] looks a player up is the
    one that [servers] collected for that player: every identifier looked up
    for a player of the fetched list is in the set passed to
    [resolve_steam_names]. *)
Theorem looked_up_identifiers_are_collected
    (data : list entry) (p : player) :
  p ∈ all_players data ->
  player_steam_id p
  = match steamid_of p with [] => None | c :: s => Some (c :: s) end
  /\ (steamid_of p <> [] -> steamid_of p ∈ collect_steam_ids data).
Proof.
  intros Hp.
  assert (Hcase : player_steam_id p
                  = match steamid_of p with
                    | [] => None
                    | c :: s => Some (c :: s)
                    end).
  { unfold player_steam_id. cbv zeta.
    destruct (py_bool (py_or (get p (lit "steamId")) (get p (lit "steam_id"))))
      eqn:Hb.
    - destruct (steamid_of_truthy p Hb) as [Heq Hne]. rewrite <- Heq.
      destruct (steamid_of p); [congruence | reflexivity].
    - rewrite (steamid_of_falsy p Hb). reflexivity. }
  split; [exact Hcase | ].
  intros Hne. apply collect_steam_ids_spec. exists p. split; [exact Hp | ].
  rewrite Hcase. destruct (steamid_of p); [congruence | reflexivity].
Qed.

Lemma looked_up_identifiers_are_collected_witness :
  steam_only_player ∈ all_players shared_id_data
  /\ steamid_of steam_only_player ∈ collect_steam_ids shared_id_data.
Proof.
  assert (H : steam_only_player ∈ all_players shared_id_data)
    by apply list_elem_of_here.
  split; [exact H | ].
  apply (proj2 (looked_up_identifiers_are_collected
                  shared_id_data steam_only_player H)).
  discriminate.
Defined.

(** ** Lookup requests and replies *)

Lemma chunks_length (ids : list pystr) :
  length (chunks ids) = (length ids + 99) / 100.
Proof.
  unfold chunks, range_step. rewrite !length_map, length_seq. reflexivity.
Qed.

(** A pass sends one request per started hundred of identifiers, each with
    the configured key; without a key it sends none. *)
Theorem lookup_request_count
    (key : option pystr) (net : request -> response) (steam_ids : gset pystr) :
  let log := (resolve_steam_names key net steam_ids).2 in
  length log = (if key_present key then (size steam_ids + 99) / 100 else 0)
  /\ Forall (fun q => req_key q = default [] key) log.
Proof.
  cbn zeta.
  destruct (key_present key) eqn:Hk;
    [destruct (decide (steam_ids = ∅)) as [He | Hne] | ].
  - rewrite resolve_steam_names_guard by auto. subst steam_ids.
    split; [reflexivity | constructor].
  - rewrite (resolve_steam_names_run key net steam_ids Hk Hne). cbn [snd].
    split.
    + rewrite length_map, chunks_length. reflexivity.
    + apply List.Forall_map. apply List.Forall_forall. reflexivity.
  - rewrite resolve_steam_names_guard by auto.
    split; [reflexivity | constructor].
Qed.

Example two_requests_for_101_identifiers :
  length (resolve_steam_names (Some (lit "KEY")) dead_net many_ids).2 = 2.
Proof. vm_compute. reflexivity. Qed.

(** No identifier collected from the records is the empty string, and no
    request of a run carries the empty identifier. *)
Theorem collected_identifiers_nonempty
    (key : option pystr) (net : request -> response) (now : Z)
    (r : fetch_response) :
  ([] ∉ collect_steam_ids (fetch_server_data r))
  /\ Forall (fun q => [] ∉ req_steamids q) (servers key net now r).2.
Proof.
  assert (Hne : [] ∉ collect_steam_ids (fetch_server_data r)).
  { intros Hin. apply collect_steam_ids_spec in Hin as (p & _ & Hp).
    unfold player_steam_id in Hp. cbv zeta in Hp.
    destruct (py_bool (py_or (get p (lit "steamId")) (get p (lit "steam_id"))))
      eqn:Hb; [ | discriminate Hp].
    injection Hp as Hp. exact (py_str_truthy_nonempty _ Hb Hp). }
  split; [exact Hne | ].
  rewrite servers_log.
  destruct (resolve_steam_names_log key net
              (collect_steam_ids (fetch_server_data r))) as (Hcat & _ & _).
  destruct Hcat as [-> | Hcat]; [constructor | ].
  apply List.Forall_forall. intros q Hq Hin. apply Hne.
  apply elem_of_elements. rewrite <- Hcat.
  apply list_elem_of_In in Hq.
  clear -Hq Hin.
  induction Hq as [q log | q q' log Hq IH]; cbn [map concat];
    apply elem_of_app; [left; exact Hin | right; exact (IH Hin)].
Qed.

(** On a list with a malformed entry the loop over the entries raises at
    that entry, having stored what came before it. *)
Lemma for_each_absorb_malformed (good rest : list item) (w : world) :
  Malformed ∉ good ->
  for_each absorb (good ++ Malformed :: rest) w
  = (Raised, (for_each absorb good w).2).
Proof.
  revert w. induction good as [ | p good IH]; intros w Hmal.
  - reflexivity.
  - cbn [app]. rewrite !for_each_cons.
    assert (Hp : p <> Malformed).
    { intros ->. apply Hmal, list_elem_of_here. }
    destruct (absorb_spec p w) as (_ & _ & _ & _ & Hr).
    specialize (Hr Hp).
    destruct (absorb p w) as [[[] | ] w']; cbn [fst] in Hr;
      [ | discriminate Hr].
    apply IH. intros Hin. apply Hmal, list_elem_of_further, Hin.
Qed.

(** A reply with status 200 whose list holds a malformed entry has the
    effect of the same reply cut before that entry: the names before it are
    stored, those after it are lost, and the batch returns normally. *)
Theorem malformed_entry_cuts_reply
    (net net' : request -> response) (key : pystr) (chunk : list pystr)
    (good rest : list item) (w : world) :
  net (Request key chunk) = Reply 200 (Players (good ++ Malformed :: rest)) ->
  net' (Request key chunk) = Reply 200 (Players good) ->
  Malformed ∉ good ->
  lookup_chunk net key chunk w = lookup_chunk net' key chunk w
  /\ (lookup_chunk net key chunk w).1 = Returned tt.
Proof.
  intros Hnet Hnet' Hmal.
  split; [ | apply lookup_chunk_spec].
  unfold lookup_chunk, try_except, bind, session_get.
  rewrite Hnet, Hnet'. cbn [fst snd Z.eqb Pos.eqb]. unfold resp_json, ret.
  rewrite (for_each_absorb_malformed good rest _ Hmal).
  destruct (for_each_absorb_spec
              good (World (mapping w) (issued w ++ [Request key chunk])))
    as (_ & _ & _ & Hm).
  destruct (Hm Hmal) as [Hr _].
  destruct (for_each absorb good _) as [[[] | ] w']; cbn [fst snd] in *;
    [reflexivity | discriminate Hr].
Qed.

Lemma malformed_entry_cuts_reply_witness :
  lookup_chunk broken_net (lit "KEY") [lit "1"; lit "2"] (World ∅ [])
  = lookup_chunk cut_net (lit "KEY") [lit "1"; lit "2"] (World ∅ []).
Proof.
  refine (proj1 (malformed_entry_cuts_reply
                   broken_net cut_net (lit "KEY") [lit "1"; lit "2"]
                   [Summary (Some (lit "1")) (Some (lit "gordon"))]
                   [Summary (Some (lit "2")) (Some (lit "alyx"))]
                   (World ∅ []) eq_refl eq_refl _)).
  intros Hin. apply elem_of_cons in Hin as [Hin | Hin]; [discriminate Hin | ].
  apply elem_of_nil in Hin. exact Hin.
Defined.

(** An element of a list of batches without a repeated identifier overall
    lies in one batch only. *)
Lemma concat_NoDup_same_batch {A} (ls : list (list A)) (c c' : list A) (x : A) :
  NoDup (concat ls) -> c ∈ ls -> c' ∈ ls -> x ∈ c -> x ∈ c' -> c = c'.
Proof.
  intros Hnd Hc Hc' Hx Hx'.
  assert (Hin : x ∈ concat (map id ls)).
  { rewrite map_id. clear -Hc Hx.
    induction Hc as [c ls | c c0 ls Hc IH]; cbn [concat];
      apply elem_of_app; [left; exact Hx | right; exact (IH Hx)]. }
  rewrite <- (map_id ls) in Hnd.
  destruct (concat_NoDup_unique id ls x Hnd Hin)
    as (before & q & after & -> & _ & Hothers).
  assert (Hq : forall d, d ∈ before ++ q :: after -> x ∈ d -> d = q).
  { intros d Hd Hxd.
    apply elem_of_app in Hd as [Hd | Hd].
    - exfalso. apply (Hothers d); [apply elem_of_app; auto | exact Hxd].
    - apply elem_of_cons in Hd as [-> | Hd]; [reflexivity | ].
      exfalso. apply (Hothers d); [apply elem_of_app; auto | exact Hxd]. }
  rewrite (Hq c Hc Hx), (Hq c' Hc' Hx'). reflexivity.
Qed.

(** With an honest lookup service, the returned mapping names only
    identifiers of the set, and the identifiers of a failed batch get no
    name. *)
Theorem honest_service_resolves_only_requested
    (key : option pystr) (net : request -> response) (steam_ids : gset pystr)
    (m : gmap pystr pystr) :
  honest net ->
  (resolve_steam_names key net steam_ids).1 = Returned m ->
  dom m ⊆ steam_ids
  /\ (forall chunk sid,
        chunk ∈ chunks (elements steam_ids) ->
        failed (net (Request (default [] key) chunk)) ->
        sid ∈ chunk ->
        m !! sid = None).
Proof.
  intros Hhonest.
  destruct (key_present key) eqn:Hk;
    [destruct (decide (steam_ids = ∅)) as [He | Hne] | ].
  - rewrite resolve_steam_names_guard by auto. intros [= <-].
    split; [rewrite dom_empty_L; set_solver | ].
    intros chunk sid _ _ _. apply lookup_empty.
  - rewrite (resolve_steam_names_run key net steam_ids Hk Hne). cbn [fst].
    intros [= <-].
    set (k := default [] key). set (cs := chunks (elements steam_ids)).
    destruct (lookup_pass_spec net k cs (World ∅ []))
      as (_ & _ & _ & Hp & _).
    cbn [mapping] in Hp.
    assert (Hprov : forall sid n,
               mapping (for_each (lookup_chunk net k) cs (World ∅ [])).2
                 !! sid = Some n ->
               exists c ps,
                 c ∈ cs /\ net (Request k c) = Reply 200 (Players ps)
                 /\ sid ∈ c).
    { intros sid n Hl.
      destruct (Hp sid n Hl) as [Hl' | (c & ps & Hc & Hnet & Hin & _ & _)].
      - rewrite lookup_empty in Hl'. discriminate.
      - exists c, ps. split; [exact Hc | ]. split; [exact Hnet | ].
        exact (Hhonest (Request k c) ps sid (Some n) Hnet Hin). }
    assert (Hcat : concat cs = elements steam_ids) by apply chunks_concat.
    assert (Hmem : forall c sid, c ∈ cs -> sid ∈ c -> sid ∈ concat cs).
    { intros c sid Hc Hs. clear -Hc Hs.
      induction Hc as [c ls | c c0 ls Hc IH]; cbn [concat];
        apply elem_of_app; [left; exact Hs | right; exact (IH Hs)]. }
    split.
    + intros sid Hsid. apply elem_of_dom in Hsid as [n Hl].
      destruct (Hprov sid n Hl) as (c & ps & Hc & _ & Hin).
      apply elem_of_elements. rewrite <- Hcat. exact (Hmem c sid Hc Hin).
    + intros chunk sid Hchunk Hfail Hsid.
      destruct (mapping _ !! sid) as [n | ] eqn:Hl; [exfalso | reflexivity].
      destruct (Hprov sid n Hl) as (c & ps & Hc & Hnet & Hin).
      assert (Heq : c = chunk).
      { apply (concat_NoDup_same_batch cs c chunk sid); try assumption.
        rewrite Hcat. apply NoDup_elements. }
      subst c. rewrite Hnet in Hfail.
      destruct Hfail as [Hf | [(s & b & Hf & Hs) | Hf]];
        [discriminate Hf | injection Hf as <- <-; congruence
        | discriminate Hf].
  - rewrite resolve_steam_names_guard by auto. intros [= <-].
    split; [rewrite dom_empty_L; set_solver | ].
    intros chunk sid _ _ _. apply lookup_empty.
Qed.

Lemma echo_net_honest : honest echo_net.
Proof.
  intros q ps sid name [= <-] Hin.
  apply list_elem_of_In, in_map_iff in Hin as (x & [= -> _] & Hx).
  apply list_elem_of_In, Hx.
Qed.

Lemma honest_service_resolves_only_requested_witness :
  honest echo_net
  /\ (resolve_steam_names (Some (lit "KEY")) echo_net {[ lit "1" ]}).1
     = Returned {[ lit "1" := lit "n1" ]}
  /\ dom ({[ lit "1" := lit "n1" ]} : gmap pystr pystr)
       ⊆ ({[ lit "1" ]} : gset pystr).
Proof.
  assert (Hrun : (resolve_steam_names (Some (lit "KEY")) echo_net
                                      {[ lit "1" ]}).1
                 = Returned {[ lit "1" := lit "n1" ]})
    by (vm_compute; reflexivity).
  split; [exact echo_net_honest | ]. split; [exact Hrun | ].
  exact (proj1 (honest_service_resolves_only_requested
                  (Some (lit "KEY")) echo_net {[ lit "1" ]}
                  {[ lit "1" := lit "n1" ]} echo_net_honest Hrun)).
Defined.

Lemma elem_of_concat_batch {A} (ls : list (list A)) (x : A) :
  x ∈ concat ls -> exists c, c ∈ ls /\ x ∈ c.
Proof.
  induction ls as [ | l ls IH]; cbn [concat]; intros Hin.
  - apply elem_of_nil in Hin. contradiction.
  - apply elem_of_app in Hin as [Hin | Hin].
    + exists l. split; [apply list_elem_of_here | exact Hin].
    + destruct (IH Hin) as (c & Hc & Hx).
      exists c. split; [apply list_elem_of_further, Hc | exact Hx].
Qed.

(** When the key is configured and every batch is answered with status 200
    and a well-formed list that gives a non-empty name to each identifier
    of the batch, every identifier of the set is resolved. *)
Theorem answered_batches_resolve_all
    (key : option pystr) (net : request -> response) (steam_ids : gset pystr)
    (m : gmap pystr pystr) :
  key_present key = true ->
  ([] ∉ steam_ids) ->
  (forall chunk,
      chunk ∈ chunks (elements steam_ids) ->
      exists ps,
        net (Request (default [] key) chunk) = Reply 200 (Players ps)
        /\ (Malformed ∉ ps)
        /\ forall sid, sid ∈ chunk ->
             exists name, name <> [] /\ Summary (Some sid) (Some name) ∈ ps) ->
  (resolve_steam_names key net steam_ids).1 = Returned m ->
  steam_ids ⊆ dom m.
Proof.
  intros Hk Hnonempty Hanswered Hm sid Hsid.
  assert (Hne : steam_ids <> ∅) by set_solver.
  rewrite (resolve_steam_names_run key net steam_ids Hk Hne) in Hm.
  cbn [fst] in Hm. injection Hm as <-.
  destruct (lookup_pass_spec net (default [] key)
              (chunks (elements steam_ids)) (World ∅ []))
    as (_ & _ & _ & _ & Hmerged & _).
  assert (Hin : sid ∈ concat (chunks (elements steam_ids))).
  { rewrite chunks_concat. apply elem_of_elements, Hsid. }
  destruct (elem_of_concat_batch _ sid Hin) as (c & Hc & Hx).
  destruct (Hanswered c Hc) as (ps & Hnet & Hmal & Hall).
  destruct (Hall sid Hx) as (name & Hname & Hs).
  apply elem_of_dom.
  apply (Hmerged c ps Hc Hnet Hmal sid name Hs); [ | exact Hname].
  intros ->. exact (Hnonempty Hsid).
Qed.

Lemma answered_batches_resolve_all_witness :
  (resolve_steam_names (Some (lit "KEY")) echo_net {[ lit "1" ]}).1
  = Returned {[ lit "1" := lit "n1" ]}
  /\ ({[ lit "1" ]} : gset pystr)
       ⊆ dom ({[ lit "1" := lit "n1" ]} : gmap pystr pystr).
Proof.
  assert (Hrun : (resolve_steam_names (Some (lit "KEY")) echo_net
                                      {[ lit "1" ]}).1
                 = Returned {[ lit "1" := lit "n1" ]})
    by (vm_compute; reflexivity).
  split; [exact Hrun | ].
  refine (answered_batches_resolve_all
            (Some (lit "KEY")) echo_net {[ lit "1" ]}
            {[ lit "1" := lit "n1" ]} eq_refl _ _ Hrun).
  - intros Hin. apply elem_of_singleton in Hin. discriminate Hin.
  - intros chunk Hchunk. eexists. split; [reflexivity | ]. split.
    + intros Hin. apply list_elem_of_In, in_map_iff in Hin as (x & Hx & _).
      discriminate Hx.
    + intros sid Hsid. exists (lit "n" ++ sid). split; [discriminate | ].
      apply list_elem_of_In, in_map_iff. exists sid.
      split; [reflexivity | apply list_elem_of_In, Hsid].
Defined.

Lemma choose_player_name_resolved_nonempty_witness :
  (resolve_steam_names (Some (lit "KEY")) echo_net {[ lit "1" ]}).1
  = Returned {[ lit "1" := lit "n1" ]}
  /\ choose_player_name {[ lit "steam_id" := PInt 1 ]}
                        {[ lit "1" := lit "n1" ]} <> [].
Proof.
  assert (Hrun : (resolve_steam_names (Some (lit "KEY")) echo_net
                                      {[ lit "1" ]}).1
                 = Returned {[ lit "1" := lit "n1" ]})
    by (vm_compute; reflexivity).
  split; [exact Hrun | ].
  exact (choose_player_name_resolved_nonempty
           (Some (lit "KEY")) echo_net {[ lit "1" ]}
           {[ lit "1" := lit "n1" ]} {[ lit "steam_id" := PInt 1 ]} Hrun).
Defined.

(** ** Stability of the packing *)

(** What the loop has included and counted after a prefix of the list stays:
    servers fetched later add fields after those and never remove one, and
    the count of omitted servers never decreases. *)
Theorem earlier_servers_unaffected_by_later
    (steam_map : gmap pystr pystr) (data more : list entry) :
  ps_fields (pack steam_map data)
    `prefix_of` ps_fields (pack steam_map (data ++ more))
  /\ (servers_truncated (pack steam_map data)
      <= servers_truncated (pack steam_map (data ++ more)))%Z
  /\ (total_chars (pack steam_map data)
      <= total_chars (pack steam_map (data ++ more)))%Z.
Proof.
  induction more as [ | e more IH] using rev_ind.
  - rewrite app_nil_r. split; [reflexivity | lia].
  - destruct IH as (Hf & Ht & Hc).
    rewrite app_assoc, pack_snoc.
    destruct (pack_step_cases steam_map (pack steam_map (data ++ more)) e)
      as [Hskip Hadd].
    destruct (Z.lt_ge_cases EMBED_TOTAL_MAX
                (total_chars (pack steam_map (data ++ more))
                 + len (server_name e)
                 + len (make_field_value steam_map e) + 10)) as [Hgt | Hle].
    + rewrite (Hskip Hgt). cbn [ps_fields servers_truncated total_chars].
      split; [exact Hf | lia].
    + rewrite (Hadd Hle). cbn [ps_fields servers_truncated total_chars].
      pose proof (len_nonneg (server_name e)).
      pose proof (len_nonneg (make_field_value steam_map e)).
      split; [apply prefix_app_r, Hf | lia].
Qed.
